(** * FrskySP: the sensor side of the Frsky Smart Port protocol

    A shallow embedding of [src/FrskySP.cpp] (the [USE_TEENSY] build) and
    the properties of its packet codec, checksum, sensor table and poll
    dispatcher.

    Conventions.
    - Every C++ integer is a [Z]; the conversions the compiler inserts
      (to [short], [uint8_t], [int32_t], [uint64_t]) are written out as
      wrap-around functions.
    - The serial port and the UART registers are an explicit part of the
      state: registers hold their last written value and every external
      effect is appended to a trace.
    - The bytes [sportSerial.read()] delivers during one call of [poll] are
      an argument of [poll].
    - Reading or writing [_sensorTable] out of bounds and a remainder by
      zero are undefined behaviour in C++; they are the outcome
      [Undefined]. *)

From Stdlib Require Import ZArith Lia List Bool.
From stdpp Require Import base list.
Import ListNotations.

Local Open Scope Z_scope.

(** ** Integer conversions *)

Definition wrap_u8 (z : Z) : Z := z mod 2 ^ 8.
Definition wrap_u64 (z : Z) : Z := z mod 2 ^ 64.
Definition wrap_short (z : Z) : Z := (z + 2 ^ 15) mod 2 ^ 16 - 2 ^ 15.
Definition wrap_i32 (z : Z) : Z := (z + 2 ^ 31) mod 2 ^ 32 - 2 ^ 31.

Definition is_u8 (z : Z) : Prop := 0 <= z < 2 ^ 8.
Definition is_u16 (z : Z) : Prop := 0 <= z < 2 ^ 16.
Definition is_i32 (z : Z) : Prop := - 2 ^ 31 <= z < 2 ^ 31.

(** ** Constants of the translation unit *)

Definition UART_C3_TXDIR : Z := 0x20.
Definition MAX_SENSORS : Z := 8.
Definition SPORT_FRAME_BEGIN : Z := 0x7E.
Definition SPORT_BYTE_STUFF_MARKER : Z := 0x7D.
Definition SPORT_BYTE_STUFF_MASK : Z := 0x20.

(** ** Data *)

(** [union FrskySP_class::packet]: eight bytes of storage, written through
    the [uint64] member and read and written through [byte[8]].  The
    Teensy's Cortex-M4 is little-endian, so [byte[i]] is bits [8i .. 8i+7]
    of [uint64]. *)
Abbreviation packet := (list Z) (only parsing).

Definition packet_of_uint64 (u : Z) : packet :=
  map (fun i : nat => Z.land (Z.shiftr u (8 * Z.of_nat i)) 0xFF) (seq 0 8).

(** [p.byte[i]]; the packets of this file always have their eight bytes,
    a read past the end of a shorter list gives 0. *)
Definition packet_byte (p : packet) (i : nat) : Z := p !!! i.

Record FrskySP_SensorData : Type := { id : Z; val : Z }.

#[global] Instance FrskySP_SensorData_inhabited : Inhabited FrskySP_SensorData :=
  populate {| id := 0; val := 0 |}.

(** External effects, in program order. *)
Inductive uart_reg : Type := UART0_C1 | UART0_C3 | UART0_S2.

Inductive event : Type :=
| EvBegin (baud : Z)
| EvReg (r : uart_reg) (v : Z)
| EvWrite (b : Z)
| EvFlush.

(** The file's statics, the three UART registers and the effect trace. *)
Record state : Type := {
  _sensorTable : list FrskySP_SensorData;
  _sensorTableIdx : Z;
  _sensorId : Z;
  _sensorValues : Z;
  sportSerial_UART_C1 : Z;
  sportSerial_UART_C3 : Z;
  sportSerial_UART_S2 : Z;
  trace : list event
}.

Inductive outcome : Type :=
| Returned (st : state)
| Blocked (st : state)
| Undefined.

(** ** The hardware shim: registers and serial port *)

Definition log (es : list event) (st : state) : state :=
  {| _sensorTable := _sensorTable st;
     _sensorTableIdx := _sensorTableIdx st;
     _sensorId := _sensorId st;
     _sensorValues := _sensorValues st;
     sportSerial_UART_C1 := sportSerial_UART_C1 st;
     sportSerial_UART_C3 := sportSerial_UART_C3 st;
     sportSerial_UART_S2 := sportSerial_UART_S2 st;
     trace := trace st ++ es |}.

Definition emit (e : event) (st : state) : state := log [e] st.

Definition write_reg (r : uart_reg) (v : Z) (st : state) : state :=
  let st := emit (EvReg r v) st in
  {| _sensorTable := _sensorTable st;
     _sensorTableIdx := _sensorTableIdx st;
     _sensorId := _sensorId st;
     _sensorValues := _sensorValues st;
     sportSerial_UART_C1 :=
       match r with UART0_C1 => v | _ => sportSerial_UART_C1 st end;
     sportSerial_UART_C3 :=
       match r with UART0_C3 => v | _ => sportSerial_UART_C3 st end;
     sportSerial_UART_S2 :=
       match r with UART0_S2 => v | _ => sportSerial_UART_S2 st end;
     trace := trace st |}.

(** [sportSerial.begin], [sportSerial.write] (its argument converted to
    [uint8_t]) and [sportSerial.flush]. *)
Definition serial_begin (baud : Z) : state -> state := emit (EvBegin baud).
Definition serial_write (b : Z) : state -> state := emit (EvWrite (wrap_u8 b)).
Definition serial_flush : state -> state := emit EvFlush.

(** ** The statics *)

Definition set_sensorTable (t : list FrskySP_SensorData) (st : state) : state :=
  {| _sensorTable := t;
     _sensorTableIdx := _sensorTableIdx st;
     _sensorId := _sensorId st;
     _sensorValues := _sensorValues st;
     sportSerial_UART_C1 := sportSerial_UART_C1 st;
     sportSerial_UART_C3 := sportSerial_UART_C3 st;
     sportSerial_UART_S2 := sportSerial_UART_S2 st;
     trace := trace st |}.

Definition set_sensorTableIdx (i : Z) (st : state) : state :=
  {| _sensorTable := _sensorTable st;
     _sensorTableIdx := i;
     _sensorId := _sensorId st;
     _sensorValues := _sensorValues st;
     sportSerial_UART_C1 := sportSerial_UART_C1 st;
     sportSerial_UART_C3 := sportSerial_UART_C3 st;
     sportSerial_UART_S2 := sportSerial_UART_S2 st;
     trace := trace st |}.

Definition set_sensorId (i : Z) (st : state) : state :=
  {| _sensorTable := _sensorTable st;
     _sensorTableIdx := _sensorTableIdx st;
     _sensorId := i;
     _sensorValues := _sensorValues st;
     sportSerial_UART_C1 := sportSerial_UART_C1 st;
     sportSerial_UART_C3 := sportSerial_UART_C3 st;
     sportSerial_UART_S2 := sportSerial_UART_S2 st;
     trace := trace st |}.

Definition set_sensorValues (n : Z) (st : state) : state :=
  {| _sensorTable := _sensorTable st;
     _sensorTableIdx := _sensorTableIdx st;
     _sensorId := _sensorId st;
     _sensorValues := n;
     sportSerial_UART_C1 := sportSerial_UART_C1 st;
     sportSerial_UART_C3 := sportSerial_UART_C3 st;
     sportSerial_UART_S2 := sportSerial_UART_S2 st;
     trace := trace st |}.

(** The state at program start: zero-initialised statics, the registers at
    whatever value the hardware holds, nothing sent yet. *)
Definition power_on (c1 c3 s2 : Z) : state :=
  {| _sensorTable := replicate (Z.to_nat MAX_SENSORS) {| id := 0; val := 0 |};
     _sensorTableIdx := 0;
     _sensorId := 0;
     _sensorValues := 0;
     sportSerial_UART_C1 := c1;
     sportSerial_UART_C3 := c3;
     sportSerial_UART_S2 := s2;
     trace := [] |}.

(** ** [FrskySP_class::CRC] *)

(** One round of the loop body; [crc] is a [short]. *)
Definition CRC_body (crc : Z) (b : Z) : Z :=
  let crc := wrap_short (crc + b) in
  let crc := wrap_short (crc + Z.shiftr crc 8) in
  let crc := wrap_short (Z.land crc 0x00ff) in
  let crc := wrap_short (crc + Z.shiftr crc 8) in
  let crc := wrap_short (Z.land crc 0x00ff) in
  crc.

Definition CRC_acc (p : packet) : Z :=
  fold_left (fun crc i => CRC_body crc (packet_byte p i)) (seq 0 8) 0.

(** [return ~crc], converted to [uint8_t]. *)
Definition CRC (p : packet) : Z := wrap_u8 (Z.lnot (CRC_acc p)).

(** ** [FrskySP_class::sendData] *)

(** [(uint64_t) type | (uint64_t) id << 8 | (int64_t) val << 24].  The
    last operand is [val] sign-extended to 64 bits and shifted as a two's
    complement number (what the compiler does, and what C++20 defines, for
    a negative [val]); it is converted to [uint64_t] for [|]. *)
Definition pack_uint64 (type id val : Z) : Z :=
  Z.lor (Z.lor (wrap_u64 type) (wrap_u64 (Z.shiftl (wrap_u64 id) 8)))
        (wrap_u64 (Z.shiftl val 24)).

(** What the sign extension of [val] to 64 bits leaves in byte 7. *)
Definition sign_byte (val : Z) : Z := if val <? 0 then 0xFF else 0.

(** The packet as it stands after line 82, before the checksum is stored. *)
Definition packed (type id val : Z) : packet :=
  packet_of_uint64 (pack_uint64 type id val).

(** The packet after [packet.byte[7] = CRC (packet.byte)]. *)
Definition raw_packet (type id val : Z) : packet :=
  let p := packed type id val in
  <[7%nat := CRC p]> p.

(** The body of the transmit loop for one byte. *)
Definition send_byte (b : Z) (st : state) : state :=
  if (b =? SPORT_FRAME_BEGIN) || (b =? SPORT_BYTE_STUFF_MARKER) then
    let st := serial_write SPORT_BYTE_STUFF_MARKER st in
    serial_write (Z.lxor b SPORT_BYTE_STUFF_MASK) st
  else
    serial_write b st.

Definition sendData (type id val : Z) (st : state) : state :=
  let p := raw_packet type id val in
  let st :=
    write_reg UART0_C3 (Z.lor (sportSerial_UART_C3 st) UART_C3_TXDIR) st in
  let st := fold_left (fun st i => send_byte (packet_byte p i) st) (seq 0 8) st in
  let st := serial_flush st in
  write_reg UART0_C3
    (wrap_u8 (Z.land (sportSerial_UART_C3 st) (Z.lnot UART_C3_TXDIR))) st.

(** ** [FrskySP_class::begin] *)

Section Teensy.
(** Two bit masks of the Teensy core's [kinetis.h]; their values play no
    part in what follows. *)
Variables UART_C1_LOOPS UART_C1_RSRC : Z.

Definition begin (sensorId sensorValues : Z) (st : state) : state :=
  let st := set_sensorId sensorId st in
  let st := set_sensorValues sensorValues st in
  let st := serial_begin 57600 st in
  let st := write_reg UART0_C3 0x10 st in
  let st := write_reg UART0_S2 0x10 st in
  write_reg UART0_C1 (Z.lor UART_C1_LOOPS UART_C1_RSRC) st.
End Teensy.

(** ** [FrskySP_class::poll] *)

(** [a % b] on [int]s with [a >= 0]. *)
Definition rem (a b : Z) : option Z :=
  if b =? 0 then None else Some (a mod b).

(** The answer to a matching poll: lines 145 to 149. *)
Definition answer (st : state) : outcome :=
  match _sensorTable st !! Z.to_nat (_sensorTableIdx st) with
  | None => Undefined
  | Some slot =>
      let st := sendData 0x10 (id slot) (wrap_i32 (val slot)) st in
      match rem (_sensorTableIdx st + 1) (_sensorValues st) with
      | None => Undefined
      | Some r => Returned (set_sensorTableIdx (wrap_u8 r) st)
      end
  end.

(** [rx] is the sequence of bytes the port delivers during the call:
    [available()] holds as long as some remain.  The inner busy wait never
    ends when the frame marker was the last byte ([Blocked]). *)
Fixpoint poll (rx : list Z) (st : state) : outcome :=
  match rx with
  | [] => Returned st
  | b :: rx =>
      if b =? SPORT_FRAME_BEGIN then
        match rx with
        | [] => Blocked st
        | c :: rx =>
            if (c =? _sensorId st) && negb (_sensorValues st =? 0) then
              match answer st with
              | Returned st => poll rx st
              | o => o
              end
            else poll rx st
        end
      else poll rx st
  end.

(** ** [FrskySP_class::setSensorData] *)

Definition setSensorData (idx id' val' : Z) (st : state) : outcome :=
  if (0 <=? idx) && (idx <? MAX_SENSORS) then
    let t := _sensorTable st in
    let t := alter (fun s => {| id := id'; val := val s |}) (Z.to_nat idx) t in
    let t := alter (fun s => {| id := id s; val := val' |}) (Z.to_nat idx) t in
    Returned (set_sensorTable t st)
  else Undefined.

(** ** Reading the effect trace *)

(** The bytes handed to [sportSerial.write], in order. *)
Fixpoint written (tr : list event) : list Z :=
  match tr with
  | [] => []
  | EvWrite b :: tr => b :: written tr
  | _ :: tr => written tr
  end.

(** The bytes written between the state [st] and a later state [st']. *)
Definition output_since (st st' : state) : list Z :=
  written (drop (length (trace st)) (trace st')).

(** The line is driven when [UART_C3_TXDIR] is set in [UART0_C3]. *)
Definition tx_asserted (c3 : Z) : bool :=
  negb (Z.land c3 UART_C3_TXDIR =? 0).

(** [writes_while_tx tx tr]: starting with the direction [tx], every write
    of [tr] happens while the line is driven. *)
Fixpoint writes_while_tx (tx : bool) (tr : list event) : bool :=
  match tr with
  | [] => true
  | EvReg UART0_C3 v :: tr => writes_while_tx (tx_asserted v) tr
  | EvWrite _ :: tr => tx && writes_while_tx tx tr
  | _ :: tr => writes_while_tx tx tr
  end.

(** The register values [sendData] writes to drive and to release the
    line, given the value it finds in [UART0_C3]. *)
Definition tx_on (c3 : Z) : Z := Z.lor c3 UART_C3_TXDIR.
Definition tx_off (c3 : Z) : Z :=
  wrap_u8 (Z.land (tx_on c3) (Z.lnot UART_C3_TXDIR)).

(** ** Reference definitions, following the specification's words *)

(** Section 4.2, byte stuffing of one byte. *)
Definition stuff (v : Z) : list Z :=
  if (v =? 0x7E) || (v =? 0x7D) then [0x7D; Z.lxor v 0x20] else [v].

(** Section 4.2, de-stuffing: the receiver's side, which the code base
    does not contain.  Upon [0x7D], discard it and XOR the following byte
    with [0x20]. *)
Fixpoint destuff (l : list Z) : list Z :=
  match l with
  | [] => []
  | b :: l =>
      if b =? 0x7D then
        match l with
        | [] => []
        | c :: l => Z.lxor c 0x20 :: destuff l
        end
      else b :: destuff l
  end.

(** Section 4.1, the checksum: a 16-bit accumulator, the fold-and-mask step
    done twice per byte, and the complement of the low 8 bits. *)
Definition fold_and_mask (acc : Z) : Z :=
  Z.land (if 0xFF <? acc then acc + Z.shiftr acc 8 else acc) 0xFF.

Definition checksum_step (acc b : Z) : Z :=
  fold_and_mask (fold_and_mask ((acc + b) mod 2 ^ 16)).

Definition checksum_4_1 (bytes : list Z) : Z :=
  Z.land (Z.lnot (fold_left checksum_step bytes 0)) 0xFF.

(** Little-endian bytes of a non-negative number. *)
Fixpoint le_bytes (n : nat) (z : Z) : list Z :=
  match n with
  | O => []
  | S n => z mod 2 ^ 8 :: le_bytes n (z / 2 ^ 8)
  end.

(** The plain sum of the bytes, to which the checksum is related. *)
Definition byte_sum (l : list Z) : Z := fold_right Z.add 0 l.

(** A slot's packet as it goes over the wire: type [0x10], stuffed. *)
Definition slot_frame (s : FrskySP_SensorData) : list Z :=
  flat_map stuff (raw_packet 0x10 (id s) (wrap_i32 (val s))).

(** ** Sequences of operations *)

Inductive op : Type :=
| OpPoll (rx : list Z)
| OpSendData (type id val : Z)
| OpSetSensorData (idx id val : Z).

Definition exec (o : op) (st : state) : outcome :=
  match o with
  | OpPoll rx => poll rx st
  | OpSendData type id val => Returned (sendData type id val st)
  | OpSetSensorData idx id val => setSensorData idx id val st
  end.

(** A caller runs the next operation only when the previous one returned. *)
Fixpoint run (ops : list op) (st : state) : outcome :=
  match ops with
  | [] => Returned st
  | o :: ops =>
      match exec o st with
      | Returned st => run ops st
      | out => out
      end
  end.

(** The state an outcome carries, if any. *)
Definition final (out : outcome) : option state :=
  match out with
  | Returned st | Blocked st => Some st
  | Undefined => None
  end.

(** [cursor < activeCount], and the table has its eight slots. *)
Definition cursor_ok (st : state) : Prop :=
  0 <= _sensorTableIdx st < _sensorValues st.

Definition table_ok (st : state) : Prop :=
  length (_sensorTable st) = Z.to_nat MAX_SENSORS.

(** The device after [begin sid n]: identity and count as configured, the
    cursor below the count, the table intact. *)
Definition configured (sid n : Z) (st : state) : Prop :=
  _sensorId st = sid /\ _sensorValues st = n /\ cursor_ok st /\ table_ok st.

(** Between calls: the registers as [begin] sets them, and a trace after
    which the line listens and in which every write was made while the
    line was driven. *)
Definition line_idle (c1 : Z) (st : state) : Prop :=
  sportSerial_UART_C3 st = 0x10 /\ sportSerial_UART_S2 st = 0x10 /\
  sportSerial_UART_C1 st = c1 /\
  forall tx tr, writes_while_tx tx (trace st ++ tr) = writes_while_tx false tr.

(** * Properties *)

(** ** Integer conversions *)

Lemma wrap_short_small z : - 2 ^ 15 <= z < 2 ^ 15 -> wrap_short z = z.
Proof. intros H. unfold wrap_short. rewrite Z.mod_small; lia. Qed.

Lemma wrap_u8_small z : 0 <= z < 2 ^ 8 -> wrap_u8 z = z.
Proof. intros H. unfold wrap_u8. now rewrite Z.mod_small. Qed.

Lemma land_255 z : Z.land z 255 = z mod 2 ^ 8.
Proof. change 255 with (Z.ones 8). now rewrite Z.land_ones. Qed.

Lemma shiftr_8 z : Z.shiftr z 8 = z / 2 ^ 8.
Proof. now rewrite Z.shiftr_div_pow2. Qed.

(** ** The checksum accumulator *)

(** The loop body is end-around-carry addition of one byte. *)
Lemma CRC_body_carry crc b :
  0 <= crc <= 255 -> 0 <= b <= 255 ->
  CRC_body crc b = if crc + b <? 256 then crc + b else crc + b - 255.
Proof.
  intros Hc Hb. unfold CRC_body.
  rewrite (wrap_short_small (crc + b)) by lia.
  rewrite !shiftr_8, !land_255.
  destruct (Z.ltb_spec (crc + b) 256) as [Hlt | Hge].
  - rewrite (Z.div_small (crc + b)) by lia.
    rewrite Z.add_0_r, (wrap_short_small (crc + b)) by lia.
    rewrite (Z.mod_small (crc + b)) by lia.
    rewrite (wrap_short_small (crc + b)) by lia.
    rewrite (Z.div_small (crc + b)) by lia.
    rewrite Z.add_0_r, (wrap_short_small (crc + b)) by lia.
    rewrite (Z.mod_small (crc + b)) by lia.
    apply wrap_short_small; lia.
  - assert (Hq : (crc + b) / 2 ^ 8 = 1)
      by (symmetry; apply (Z.div_unique _ _ 1 (crc + b - 256)); lia).
    rewrite Hq, (wrap_short_small (crc + b + 1)) by lia.
    assert (Hm : (crc + b + 1) mod 2 ^ 8 = crc + b - 255)
      by (symmetry; apply (Z.mod_unique _ _ 1); lia).
    rewrite Hm, (wrap_short_small (crc + b - 255)) by lia.
    rewrite (Z.div_small (crc + b - 255)) by lia.
    rewrite Z.add_0_r, (wrap_short_small (crc + b - 255)) by lia.
    rewrite (Z.mod_small (crc + b - 255)) by lia.
    apply wrap_short_small; lia.
Qed.

(** Loops over lists, kept generic in the loop body. *)
Lemma fold_left_step {A B : Type} (f : A -> B -> A) (x : B) (l : list B) (a : A) :
  fold_left f (x :: l) a = fold_left f l (f a x).
Proof. reflexivity. Qed.

Lemma fold_left_seq_from {A : Type} (f : A -> Z -> A) (p : list Z) :
  forall (q : list Z) (a : A),
  fold_left (fun a i => f a ((q ++ p) !!! i)) (seq (length q) (length p)) a =
  fold_left f p a.
Proof.
  induction p as [| x p IH]; intros q a; [reflexivity |].
  cbn [length seq]. rewrite !fold_left_step.
  replace ((q ++ x :: p) !!! length q) with x.
  - specialize (IH (q ++ [x]) (f a x)).
    rewrite <- app_assoc, length_app, Nat.add_1_r in IH. exact IH.
  - symmetry. apply list_lookup_total_correct.
    rewrite lookup_app_r by lia. now rewrite Nat.sub_diag.
Qed.

(** A [for (i = 0; i < n; i++)] loop reading [p[i]] is a fold over [p]. *)
Lemma fold_left_seq_lookup {A : Type} (f : A -> Z -> A) (p : list Z) (a : A) :
  fold_left (fun a i => f a (p !!! i)) (seq 0 (length p)) a = fold_left f p a.
Proof. exact (fold_left_seq_from f p [] a). Qed.

Lemma CRC_body_range crc b :
  0 <= crc <= 255 -> 0 <= b <= 255 -> 0 <= CRC_body crc b <= 255.
Proof.
  intros Hc Hb. rewrite CRC_body_carry by lia.
  destruct (Z.ltb_spec (crc + b) 256); lia.
Qed.

Lemma byte_sum_cons x l : byte_sum (x :: l) = x + byte_sum l.
Proof. reflexivity. Qed.

Lemma byte_sum_nonneg l : Forall is_u8 l -> 0 <= byte_sum l.
Proof.
  induction 1 as [| x l Hx _ IH]; [cbn; lia |].
  rewrite byte_sum_cons. unfold is_u8 in Hx. lia.
Qed.

(** The accumulator stays a byte, is congruent to the sum of the bytes
    modulo 255, and is zero only when nothing but zeros was added. *)
Lemma CRC_fold_spec l : forall a0,
  0 <= a0 <= 255 -> Forall is_u8 l ->
  0 <= fold_left CRC_body l a0 <= 255 /\
  (exists k, a0 + byte_sum l = fold_left CRC_body l a0 + 255 * k) /\
  (fold_left CRC_body l a0 = 0 <-> a0 = 0 /\ byte_sum l = 0).
Proof.
  induction l as [| x l IH]; intros a0 Ha Hl.
  - cbn [fold_left]. change (byte_sum []) with 0.
    repeat split; try lia. exists 0. lia.
  - rewrite fold_left_step, byte_sum_cons.
    inversion Hl as [| ? ? Hx Hl']; subst. unfold is_u8 in Hx.
    pose proof (byte_sum_nonneg l Hl') as Hs.
    pose proof (CRC_body_range a0 x ltac:(lia) ltac:(lia)) as Hr.
    pose proof (CRC_body_carry a0 x ltac:(lia) ltac:(lia)) as E.
    destruct (IH (CRC_body a0 x) Hr Hl') as (Hb & [k Hk] & Hz).
    clear IH. revert Hr E Hb Hk Hz.
    generalize (CRC_body a0 x). intros c Hr E Hb Hk Hz.
    split; [exact Hb |]. split.
    + destruct (Z.ltb_spec (a0 + x) 256).
      * exists k. lia.
      * exists (k + 1). lia.
    + clear Hk Hb. destruct (Z.ltb_spec (a0 + x) 256); rewrite Hz; lia.
Qed.

Lemma CRC_acc_fold (p : packet) :
  length p = 8%nat -> CRC_acc p = fold_left CRC_body p 0.
Proof.
  intros H. unfold CRC_acc, packet_byte. rewrite <- H.
  apply fold_left_seq_lookup.
Qed.

Lemma CRC_of_acc (p : packet) :
  length p = 8%nat -> Forall is_u8 p -> CRC p = 255 - CRC_acc p.
Proof.
  intros Hlen Hp. unfold CRC.
  assert (Hb : 0 <= CRC_acc p <= 255).
  { rewrite CRC_acc_fold by exact Hlen.
    exact (proj1 (CRC_fold_spec p 0 ltac:(lia) Hp)). }
  revert Hb. generalize (CRC_acc p). intros a Hb.
  unfold Z.lnot, wrap_u8. symmetry. apply (Z.mod_unique _ _ (-1)); lia.
Qed.

Lemma byte_sum_insert (l : list Z) : forall (i : nat) v,
  (i < length l)%nat -> byte_sum (<[i := v]> l) = byte_sum l - l !!! i + v.
Proof.
  induction l as [| x l IH]; intros i v Hi; simpl in Hi; [lia |].
  destruct i as [| i].
  - change (<[0%nat := v]> (x :: l)) with (v :: l).
    change ((x :: l) !!! 0%nat) with x. rewrite !byte_sum_cons. lia.
  - change (<[S i := v]> (x :: l)) with (x :: <[i := v]> l).
    change ((x :: l) !!! S i) with (l !!! i).
    rewrite !byte_sum_cons, IH by lia. lia.
Qed.

Lemma Forall_u8_lookup (l : list Z) (i : nat) :
  Forall is_u8 l -> (i < length l)%nat -> is_u8 (l !!! i).
Proof.
  intros Hl Hi. destruct (lookup_lt_is_Some_2 l i Hi) as [x Hx].
  rewrite (list_lookup_total_correct _ _ _ Hx).
  exact (proj1 (Forall_lookup _ _) Hl i x Hx).
Qed.

Lemma byte_sum_ge_lookup (l : list Z) : forall j : nat,
  Forall is_u8 l -> (j < length l)%nat -> 0 <= l !!! j <= byte_sum l.
Proof.
  induction l as [| x l IH]; intros j Hl Hj; simpl in Hj; [lia |].
  inversion Hl as [| ? ? Hx Hl']; subst. unfold is_u8 in Hx.
  pose proof (byte_sum_nonneg l Hl') as Hs. rewrite byte_sum_cons.
  destruct j as [| j].
  - change ((x :: l) !!! 0%nat) with x. lia.
  - change ((x :: l) !!! S j) with (l !!! j).
    specialize (IH j Hl' ltac:(lia)). lia.
Qed.

Lemma byte_sum_nonzero_lookup (l : list Z) :
  Forall is_u8 l -> byte_sum l <> 0 ->
  exists j : nat, (j < length l)%nat /\ l !!! j <> 0.
Proof.
  induction 1 as [| x l Hx Hl IH]; intros Hs; [now contradict Hs |].
  rewrite byte_sum_cons in Hs.
  destruct (Z.eq_dec x 0) as [-> | Hx0].
  - destruct (IH ltac:(lia)) as (j & Hj & Hne).
    exists (S j). split; [simpl; lia | exact Hne].
  - exists 0%nat. split; [simpl; lia | exact Hx0].
Qed.

(** Some byte other than the [i]-th is non-zero exactly when the sum of
    the others is. *)
Lemma other_byte_nonzero (b : list Z) (i : nat) :
  Forall is_u8 b -> (i < length b)%nat ->
  (exists j : nat, (j < length b)%nat /\ j <> i /\ b !!! j <> 0) <->
  byte_sum b - b !!! i <> 0.
Proof.
  intros Hb Hi.
  assert (H0 : is_u8 0) by (unfold is_u8; lia).
  pose proof (Forall_insert _ _ i 0 Hb H0) as Hb0.
  pose proof (byte_sum_insert b i 0 Hi) as Hs.
  replace (byte_sum b - b !!! i) with (byte_sum (<[i := 0]> b)) by lia.
  split.
  - intros (j & Hj & Hji & Hne).
    pose proof (byte_sum_ge_lookup (<[i := 0]> b) j Hb0) as Hge.
    rewrite length_insert in Hge. specialize (Hge Hj).
    rewrite list_lookup_total_insert_ne in Hge by congruence. lia.
  - intros Hne.
    destruct (byte_sum_nonzero_lookup _ Hb0 Hne) as (j & Hj & Hj0).
    rewrite length_insert in Hj. exists j.
    destruct (Nat.eq_dec i j) as [-> | Hij].
    + rewrite list_lookup_total_insert_eq in Hj0 by exact Hj. now contradict Hj0.
    + rewrite list_lookup_total_insert_ne in Hj0 by exact Hij. auto.
Qed.

(** When replacing one byte leaves the checksum as it was. *)
Lemma CRC_edit_collides_iff (b : list Z) (i : nat) (v : Z) :
  length b = 8%nat -> Forall is_u8 b -> (i < 8)%nat -> is_u8 v ->
  v <> b !!! i ->
  (CRC (<[i := v]> b) = CRC b <->
   ((b !!! i = 0 /\ v = 255) \/ (b !!! i = 255 /\ v = 0)) /\
   byte_sum b - b !!! i <> 0).
Proof.
  intros Hlen Hb Hi Hv Hne.
  pose proof (Forall_insert _ _ i v Hb Hv) as Hb'.
  assert (Hlen' : length (<[i := v]> b) = 8%nat) by now rewrite length_insert.
  rewrite (CRC_of_acc _ Hlen' Hb'), (CRC_of_acc _ Hlen Hb).
  rewrite (CRC_acc_fold _ Hlen'), (CRC_acc_fold _ Hlen).
  destruct (CRC_fold_spec _ 0 ltac:(lia) Hb') as (Hr' & [k' Hk'] & Hz').
  destruct (CRC_fold_spec _ 0 ltac:(lia) Hb) as (Hr & [k Hk] & Hz).
  rewrite byte_sum_insert in Hk', Hz' by lia.
  pose proof (byte_sum_ge_lookup b i Hb ltac:(lia)) as Hx.
  unfold is_u8 in Hv.
  assert (Hx' : b !!! i < 2 ^ 8)
    by (apply (Forall_u8_lookup b i Hb); lia).
  revert Hv Hr' Hk' Hz' Hr Hk Hz Hx Hx' Hne.
  generalize (fold_left CRC_body (<[i := v]> b) 0).
  generalize (fold_left CRC_body b 0).
  generalize (b !!! i). generalize (byte_sum b).
  clear. intros s x a a'. lia.
Qed.

(** ** The byte layout of the packet *)

Lemma land_low_shiftl a b n :
  0 <= n -> 0 <= a < 2 ^ n -> Z.land a (Z.shiftl b n) = 0.
Proof.
  intros Hn Ha. apply Z.bits_inj'. intros m Hm.
  rewrite Z.land_spec, Z.bits_0.
  destruct (Z.lt_ge_cases m n) as [Hlt | Hge].
  - rewrite Z.shiftl_spec_low by lia. apply andb_false_r.
  - rewrite <- (Z.mod_small a (2 ^ n)) by lia.
    now rewrite Z.mod_pow2_bits_high by lia.
Qed.

(** [|] of a low part and a shifted high part is their sum. *)
Lemma lor_low_shiftl a b n :
  0 <= n -> 0 <= a < 2 ^ n -> Z.lor a (Z.shiftl b n) = a + 2 ^ n * b.
Proof.
  intros Hn Ha. pose proof (land_low_shiftl a b n Hn Ha) as H0.
  rewrite <- Z.lxor_lor by exact H0.
  rewrite <- Z.add_nocarry_lxor by exact H0.
  rewrite Z.shiftl_mul_pow2 by lia. lia.
Qed.

Lemma pack_uint64_sum type id val :
  is_u8 type -> is_u16 id -> is_i32 val ->
  pack_uint64 type id val =
  type + 2 ^ 8 * (id + 2 ^ 16 * (val mod 2 ^ 32 + 2 ^ 32 * sign_byte val)).
Proof.
  unfold is_u8, is_u16, is_i32, pack_uint64, wrap_u64, sign_byte.
  intros Ht Hi Hv.
  rewrite (Z.mod_small type), (Z.mod_small id) by lia.
  rewrite (Z.shiftl_mul_pow2 id 8) by lia.
  rewrite (Z.mod_small (id * 2 ^ 8)) by lia.
  rewrite <- (Z.shiftl_mul_pow2 id 8) by lia.
  rewrite (lor_low_shiftl type id 8) by lia.
  rewrite (Z.shiftl_mul_pow2 val 24) by lia.
  change (2 ^ 64) with (2 ^ 40 * 2 ^ 24).
  rewrite Z.mul_mod_distr_r by lia.
  rewrite <- (Z.shiftl_mul_pow2 (val mod 2 ^ 40) 24) by lia.
  rewrite lor_low_shiftl by lia.
  assert (Hm : val mod 2 ^ 40 =
               val mod 2 ^ 32 + 2 ^ 32 * (if val <? 0 then 255 else 0)).
  { destruct (Z.ltb_spec val 0).
    - rewrite <- (Z.mod_unique val (2 ^ 40) (-1) (val + 2 ^ 40)) by lia.
      rewrite <- (Z.mod_unique val (2 ^ 32) (-1) (val + 2 ^ 32)) by lia. lia.
    - rewrite !Z.mod_small by lia. lia. }
  rewrite Hm. lia.
Qed.

Lemma le_bytes_map n : forall u,
  le_bytes n u =
  map (fun i : nat => Z.land (Z.shiftr u (8 * Z.of_nat i)) 0xFF) (seq 0 n).
Proof.
  induction n as [| n IH]; intros u; [reflexivity |].
  cbn [le_bytes seq map]. f_equal.
  - change (8 * Z.of_nat 0) with 0. now rewrite Z.shiftr_0_r, land_255.
  - rewrite IH, <- seq_shift, map_map. apply map_ext. intros i.
    rewrite <- shiftr_8, Z.shiftr_shiftr by lia. do 2 f_equal. lia.
Qed.

Lemma packet_of_uint64_le u : packet_of_uint64 u = le_bytes 8 u.
Proof. symmetry. apply le_bytes_map. Qed.

Lemma length_le_bytes n : forall u, length (le_bytes n u) = n.
Proof. induction n as [| n IH]; intros u; cbn [le_bytes length]; auto. Qed.

Lemma le_bytes_u8 n : forall u, Forall is_u8 (le_bytes n u).
Proof.
  induction n as [| n IH]; intros u; cbn [le_bytes]; constructor.
  - unfold is_u8. apply Z.mod_pos_bound. lia.
  - apply IH.
Qed.

(** Splitting a number into a low part of [m] bytes and the rest. *)
Lemma le_bytes_app m : forall n x r,
  0 <= x < 2 ^ (8 * Z.of_nat m) ->
  le_bytes (m + n) (x + 2 ^ (8 * Z.of_nat m) * r) = le_bytes m x ++ le_bytes n r.
Proof.
  induction m as [| m IH]; intros n x r Hx.
  - change (2 ^ (8 * Z.of_nat 0)) with 1 in *.
    cbn [Nat.add le_bytes app]. f_equal. lia.
  - replace (2 ^ (8 * Z.of_nat (S m))) with (2 ^ 8 * 2 ^ (8 * Z.of_nat m)) in *
      by (rewrite <- Z.pow_add_r by lia; f_equal; lia).
    cbn [Nat.add le_bytes app]. f_equal.
    + replace (x + 2 ^ 8 * 2 ^ (8 * Z.of_nat m) * r)
        with (x + 2 ^ (8 * Z.of_nat m) * r * 2 ^ 8) by lia.
      apply Z.mod_add. lia.
    + replace (x + 2 ^ 8 * 2 ^ (8 * Z.of_nat m) * r)
        with (x + 2 ^ (8 * Z.of_nat m) * r * 2 ^ 8) by lia.
      rewrite Z.div_add by lia. apply IH.
      split; [apply Z.div_pos; lia |].
      apply Z.div_lt_upper_bound; lia.
Qed.

Lemma le_bytes_one x : 0 <= x < 2 ^ 8 -> le_bytes 1 x = [x].
Proof. intros Hx. cbn [le_bytes]. now rewrite Z.mod_small. Qed.

(** The eight bytes after line 82. *)
Lemma packed_layout type id val :
  is_u8 type -> is_u16 id -> is_i32 val ->
  packed type id val =
  type :: le_bytes 2 id ++ le_bytes 4 (val mod 2 ^ 32) ++ [sign_byte val].
Proof.
  intros Ht Hi Hv. unfold packed.
  rewrite packet_of_uint64_le, pack_uint64_sum by assumption.
  unfold is_u8, is_u16, is_i32 in *.
  pose proof (Z.mod_pos_bound val (2 ^ 32) ltac:(lia)) as Hw.
  assert (Hs : 0 <= sign_byte val < 2 ^ 8)
    by (unfold sign_byte; destruct (val <? 0); lia).
  rewrite (le_bytes_app 1 7 type) by (exact Ht).
  rewrite (le_bytes_app 2 5 id) by (exact Hi).
  rewrite (le_bytes_app 4 1 (val mod 2 ^ 32)) by (exact Hw).
  rewrite !le_bytes_one by assumption. reflexivity.
Qed.

Lemma fold_left_snoc {A B : Type} (f : A -> B -> A) (l : list B) (x : B) (a : A) :
  fold_left f (l ++ [x]) a = f (fold_left f l a) x.
Proof. rewrite fold_left_app. reflexivity. Qed.

Lemma byte_sum_app l1 l2 : byte_sum (l1 ++ l2) = byte_sum l1 + byte_sum l2.
Proof.
  induction l1 as [| x l1 IH]; [reflexivity |].
  change ((x :: l1) ++ l2) with (x :: (l1 ++ l2)).
  rewrite !byte_sum_cons, IH. lia.
Qed.

(** ** The checksum of section 4.1 and [CRC] *)

Lemma fold_and_mask_carry x :
  0 <= x <= 510 -> fold_and_mask x = if x <? 256 then x else x - 255.
Proof.
  intros Hx. unfold fold_and_mask. rewrite land_255, shiftr_8.
  destruct (Z.ltb_spec 255 x), (Z.ltb_spec x 256); try lia.
  - symmetry. apply (Z.mod_unique _ _ 1). lia.
    assert (Hq : x / 2 ^ 8 = 1)
      by (symmetry; apply (Z.div_unique _ _ 1 (x - 256)); lia).
    rewrite Hq. lia.
  - apply Z.mod_small. lia.
Qed.

Lemma checksum_step_CRC_body a b :
  0 <= a <= 255 -> 0 <= b <= 255 -> checksum_step a b = CRC_body a b.
Proof.
  intros Ha Hb. rewrite CRC_body_carry by assumption.
  unfold checksum_step. rewrite (Z.mod_small (a + b)) by lia.
  rewrite (fold_and_mask_carry (a + b)) by lia.
  destruct (Z.ltb_spec (a + b) 256) as [Hlt | Hge];
    rewrite fold_and_mask_carry by lia.
  - destruct (Z.ltb_spec (a + b) 256); lia.
  - destruct (Z.ltb_spec (a + b - 255) 256); lia.
Qed.

Lemma checksum_fold_CRC l : forall a,
  0 <= a <= 255 -> Forall is_u8 l ->
  fold_left checksum_step l a = fold_left CRC_body l a.
Proof.
  induction l as [| x l IH]; intros a Ha Hl; [reflexivity |].
  inversion Hl as [| ? ? Hx Hl']; subst. unfold is_u8 in Hx.
  rewrite !fold_left_step.
  rewrite checksum_step_CRC_body by lia.
  apply IH; [apply CRC_body_range; lia | exact Hl'].
Qed.

(** On eight bytes the code's [CRC] is the checksum of section 4.1. *)
Lemma CRC_is_checksum_4_1 (p : packet) :
  length p = 8%nat -> Forall is_u8 p -> CRC p = checksum_4_1 p.
Proof.
  intros Hlen Hp. unfold CRC, checksum_4_1.
  rewrite (CRC_acc_fold p Hlen), (checksum_fold_CRC p 0 ltac:(lia) Hp).
  now rewrite land_255.
Qed.

(** ** The checksum that [sendData] stores *)

Lemma high_byte_of_negative w :
  2 ^ 31 <= w < 2 ^ 32 -> byte_sum (le_bytes 4 w) <> 0.
Proof.
  intros Hw.
  pose proof (byte_sum_ge_lookup (le_bytes 4 w) 3 (le_bytes_u8 4 w)) as H.
  rewrite length_le_bytes in H. specialize (H ltac:(lia)).
  assert (H3 : le_bytes 4 w !!! 3%nat = w / 2 ^ 8 / 2 ^ 8 / 2 ^ 8 mod 2 ^ 8)
    by reflexivity.
  rewrite H3 in H. rewrite !Z.div_div in H by lia.
  change (2 ^ 8 * 2 ^ 8 * 2 ^ 8) with (2 ^ 24) in H.
  assert (Hq : 2 ^ 7 <= w / 2 ^ 24 < 2 ^ 8).
  { split; [apply Z.div_le_lower_bound | apply Z.div_lt_upper_bound]; lia. }
  rewrite (Z.mod_small (w / 2 ^ 24)) in H by lia. lia.
Qed.

(** When [CRC] is called, byte 7 holds [0xFF] for a negative value and 0
    otherwise. *)
Lemma packed_byte7 type id val :
  is_u8 type -> is_u16 id -> is_i32 val ->
  packed type id val !! 7%nat = Some (sign_byte val).
Proof.
  intros Ht Hi Hv. rewrite packed_layout by assumption.
  change (type :: le_bytes 2 id ++ le_bytes 4 (val mod 2 ^ 32) ++ [sign_byte val])
    with ((type :: le_bytes 2 id ++ le_bytes 4 (val mod 2 ^ 32)) ++ [sign_byte val]).
  rewrite lookup_app_r; cbn [length]; rewrite length_app, !length_le_bytes;
    [reflexivity | lia].
Qed.

(** For a negative value the accumulator is non-zero when byte 7 is
    reached, so that adding its [0xFF] leaves the accumulator as it is:
    the checksum is the one of the packet with a zero in byte 7. *)
Lemma CRC_packed_placeholder type id val :
  is_u8 type -> is_u16 id -> is_i32 val ->
  CRC (packed type id val) = CRC (<[7%nat := 0]> (packed type id val)).
Proof.
  intros Ht Hi Hv. rewrite packed_layout by assumption.
  set (body := type :: le_bytes 2 id ++ le_bytes 4 (val mod 2 ^ 32)).
  change (type :: le_bytes 2 id ++ le_bytes 4 (val mod 2 ^ 32) ++ [sign_byte val])
    with (body ++ [sign_byte val]).
  assert (Hlen : length body = 7%nat).
  { unfold body. cbn [length]. now rewrite length_app, !length_le_bytes. }
  assert (Hbody : Forall is_u8 body).
  { unfold body. constructor; [exact Ht |].
    apply Forall_app; split; apply le_bytes_u8. }
  assert (Hins : <[7%nat := 0]> (body ++ [sign_byte val]) = body ++ [0]).
  { rewrite <- Hlen, <- (Nat.add_0_r (length body)).
    now rewrite (insert_app_r body [sign_byte val] 0 0). }
  rewrite Hins.
  assert (Hs : is_u8 (sign_byte val))
    by (unfold sign_byte, is_u8; destruct (val <? 0); lia).
  assert (H0 : is_u8 0) by (unfold is_u8; lia).
  assert (Hl8 : forall x, length (body ++ [x]) = 8%nat)
    by (intros x; rewrite length_app, Hlen; reflexivity).
  assert (Hu8 : forall x, is_u8 x -> Forall is_u8 (body ++ [x]))
    by (intros x Hx; apply Forall_app; split; [exact Hbody | now constructor]).
  rewrite !CRC_of_acc, !CRC_acc_fold, !fold_left_snoc by auto.
  destruct (CRC_fold_spec body 0 ltac:(lia) Hbody) as (Hr & _ & Hz).
  assert (Hsum : val < 0 -> byte_sum body <> 0).
  { intros Hneg. unfold body. rewrite byte_sum_cons, byte_sum_app.
    unfold is_u8, is_i32 in *.
    pose proof (byte_sum_nonneg _ (le_bytes_u8 2 id)).
    pose proof (high_byte_of_negative (val mod 2 ^ 32)) as Hh.
    rewrite <- (Z.mod_unique val (2 ^ 32) (-1) (val + 2 ^ 32)) in Hh |- * by lia.
    specialize (Hh ltac:(lia)).
    pose proof (byte_sum_nonneg _ (le_bytes_u8 4 (val + 2 ^ 32))). lia. }
  revert Hr Hz Hsum. generalize (fold_left CRC_body body 0). intros a Hr Hz Hsum.
  f_equal. rewrite (CRC_body_carry a 0) by lia.
  unfold sign_byte. destruct (Z.ltb_spec val 0) as [Hneg | Hpos].
  - rewrite (CRC_body_carry a 255) by lia.
    assert (a <> 0) by (intros Ha; apply (Hsum Hneg), Hz, Ha).
    destruct (Z.ltb_spec (a + 255) 256), (Z.ltb_spec (a + 0) 256); lia.
  - now rewrite (CRC_body_carry a 0) by lia.
Qed.

(** ** The effects of [sendData] *)

Lemma log_log es1 es2 st : log es2 (log es1 st) = log (es1 ++ es2) st.
Proof. unfold log. cbn. now rewrite app_assoc. Qed.

Lemma length_packed type id val : length (packed type id val) = 8%nat.
Proof. unfold packed, packet_of_uint64. now rewrite length_map, length_seq. Qed.

Lemma length_raw_packet type id val : length (raw_packet type id val) = 8%nat.
Proof. unfold raw_packet. rewrite length_insert. apply length_packed. Qed.

Lemma wrap_u8_is_u8 z : is_u8 (wrap_u8 z).
Proof. unfold is_u8, wrap_u8. apply Z.mod_pos_bound. lia. Qed.

Lemma packed_u8 type id val : Forall is_u8 (packed type id val).
Proof.
  unfold packed. rewrite packet_of_uint64_le. apply le_bytes_u8.
Qed.

Lemma raw_packet_u8 type id val : Forall is_u8 (raw_packet type id val).
Proof.
  unfold raw_packet. apply Forall_insert; [apply packed_u8 |].
  apply wrap_u8_is_u8.
Qed.

(** The loop body of [sendData] writes the stuffing of the byte. *)
Lemma send_byte_log b st :
  is_u8 b -> send_byte b st = log (map EvWrite (stuff b)) st.
Proof.
  intros Hb. unfold send_byte, stuff, serial_write, emit.
  change SPORT_FRAME_BEGIN with 0x7E. change SPORT_BYTE_STUFF_MARKER with 0x7D.
  change SPORT_BYTE_STUFF_MASK with 0x20.
  destruct (Z.eqb_spec b 0x7E) as [-> | H1]; [now rewrite log_log |].
  destruct (Z.eqb_spec b 0x7D) as [-> | H2]; [now rewrite log_log |].
  cbn [orb map]. now rewrite wrap_u8_small by exact Hb.
Qed.

Lemma send_bytes_log (p : list Z) : forall st,
  Forall is_u8 p ->
  fold_left (fun st b => send_byte b st) p st =
  log (map EvWrite (flat_map stuff p)) st.
Proof.
  induction p as [| b p IH]; intros st Hp.
  - destruct st. unfold log. cbn. now rewrite app_nil_r.
  - inversion Hp as [| ? ? Hb Hp']; subst.
    rewrite fold_left_step, IH, send_byte_log, log_log by assumption.
    cbn [flat_map]. now rewrite map_app.
Qed.

(** The state after [sendData]: the statics and two registers untouched,
    [UART0_C3] back to "listen", and one frame of effects appended. *)
Lemma sendData_state type id val st :
  sendData type id val st =
  {| _sensorTable := _sensorTable st;
     _sensorTableIdx := _sensorTableIdx st;
     _sensorId := _sensorId st;
     _sensorValues := _sensorValues st;
     sportSerial_UART_C1 := sportSerial_UART_C1 st;
     sportSerial_UART_C3 := tx_off (sportSerial_UART_C3 st);
     sportSerial_UART_S2 := sportSerial_UART_S2 st;
     trace := trace st ++
              EvReg UART0_C3 (tx_on (sportSerial_UART_C3 st)) ::
              map EvWrite (flat_map stuff (raw_packet type id val)) ++
              [EvFlush; EvReg UART0_C3 (tx_off (sportSerial_UART_C3 st))] |}.
Proof.
  unfold sendData.
  pose proof (length_raw_packet type id val) as Hlen.
  pose proof (raw_packet_u8 type id val) as Hp.
  revert Hlen Hp. generalize (raw_packet type id val). intros p Hlen Hp.
  pose proof (fold_left_seq_lookup (fun st b => send_byte b st) p) as E.
  cbv beta in E. rewrite Hlen in E.
  unfold packet_byte. rewrite E, send_bytes_log by exact Hp.
  destruct st. unfold write_reg, serial_flush, emit, log, tx_off, tx_on. cbn.
  f_equal. rewrite <- !app_assoc. reflexivity.
Qed.

Lemma written_app tr1 tr2 : written (tr1 ++ tr2) = written tr1 ++ written tr2.
Proof.
  induction tr1 as [| e tr1 IH]; [reflexivity |].
  destruct e; cbn [app written]; now rewrite IH.
Qed.

Lemma written_writes ws : written (map EvWrite ws) = ws.
Proof. induction ws as [| w ws IH]; cbn [map written]; now rewrite ?IH. Qed.

Lemma output_since_log es st : output_since st (log es st) = written es.
Proof.
  unfold output_since, log. cbn [trace].
  now rewrite drop_app_length.
Qed.

Lemma sendData_log type id val st :
  trace (sendData type id val st) =
  trace st ++
  EvReg UART0_C3 (tx_on (sportSerial_UART_C3 st)) ::
  map EvWrite (flat_map stuff (raw_packet type id val)) ++
  [EvFlush; EvReg UART0_C3 (tx_off (sportSerial_UART_C3 st))].
Proof. now rewrite sendData_state. Qed.

Lemma sendData_output type id val st :
  output_since st (sendData type id val st) =
  flat_map stuff (raw_packet type id val).
Proof.
  unfold output_since. rewrite sendData_log, drop_app_length.
  cbn [written]. rewrite written_app, written_writes.
  cbn [written]. apply app_nil_r.
Qed.

(** ** Byte stuffing *)

Lemma destuff_stuff v l : destuff (stuff v ++ l) = v :: destuff l.
Proof.
  unfold stuff.
  destruct (Z.eqb_spec v 0x7E) as [-> | H1]; [reflexivity |].
  destruct (Z.eqb_spec v 0x7D) as [-> | H2]; [reflexivity |].
  cbn [orb app destuff]. destruct (Z.eqb_spec v 0x7D); [lia | reflexivity].
Qed.

Lemma destuff_flat_map_stuff l : destuff (flat_map stuff l) = l.
Proof.
  induction l as [| v l IH]; [reflexivity |].
  cbn [flat_map]. now rewrite destuff_stuff, IH.
Qed.

(** ** The transmit direction *)

Lemma tx_asserted_on c3 : tx_asserted (tx_on c3) = true.
Proof.
  unfold tx_asserted, tx_on. change UART_C3_TXDIR with (2 ^ 5).
  destruct (Z.eqb_spec (Z.land (Z.lor c3 (2 ^ 5)) (2 ^ 5)) 0) as [E | _];
    [| reflexivity].
  apply (f_equal (fun z => Z.testbit z 5)) in E.
  rewrite Z.land_spec, Z.lor_spec, Z.bits_0, Z.pow2_bits_true in E by lia.
  now rewrite orb_true_r in E.
Qed.

Lemma tx_asserted_off c3 : tx_asserted (tx_off c3) = false.
Proof.
  unfold tx_asserted, tx_off, wrap_u8. change UART_C3_TXDIR with (2 ^ 5).
  assert (E : Z.land (Z.land (tx_on c3) (Z.lnot (2 ^ 5)) mod 2 ^ 8) (2 ^ 5) = 0).
  { apply Z.bits_inj'. intros m Hm.
    rewrite Z.land_spec, Z.bits_0, Z.pow2_bits_eqb by lia.
    destruct (Z.eqb_spec 5 m) as [<- | _]; [| apply andb_false_r].
    rewrite Z.mod_pow2_bits_low, Z.land_spec, Z.lnot_spec by lia.
    rewrite Z.pow2_bits_true by lia. now rewrite andb_false_r. }
  now rewrite E.
Qed.

(** ** The poll dispatcher *)

(** [poll] consumes one or two bytes per round. *)
Lemma list_pair_ind {A : Type} (P : list A -> Prop) :
  P [] -> (forall a, P [a]) ->
  (forall a b l, P l -> P (b :: l) -> P (a :: b :: l)) ->
  forall l, P l.
Proof.
  intros H0 H1 H2 l.
  assert (H : P l /\ forall a, P (a :: l)); [| exact (proj1 H)].
  induction l as [| b l [IHl IHb]]; split; auto.
Qed.

Lemma poll_skip b rx st :
  b <> SPORT_FRAME_BEGIN -> poll (b :: rx) st = poll rx st.
Proof.
  intros Hb. cbn [poll]. now destruct (Z.eqb_spec b SPORT_FRAME_BEGIN).
Qed.

Lemma poll_blocked st : poll [SPORT_FRAME_BEGIN] st = Blocked st.
Proof. reflexivity. Qed.

Lemma poll_mismatch c rx st :
  c <> _sensorId st -> poll (SPORT_FRAME_BEGIN :: c :: rx) st = poll rx st.
Proof.
  intros Hc. cbn [poll]. rewrite Z.eqb_refl.
  now destruct (Z.eqb_spec c (_sensorId st)).
Qed.

Lemma poll_inactive c rx st :
  _sensorValues st = 0 -> poll (SPORT_FRAME_BEGIN :: c :: rx) st = poll rx st.
Proof.
  intros Hn. cbn [poll]. rewrite Z.eqb_refl, Hn.
  now rewrite andb_false_r.
Qed.

Lemma poll_match rx st :
  _sensorValues st <> 0 ->
  poll (SPORT_FRAME_BEGIN :: _sensorId st :: rx) st =
  match answer st with
  | Returned st' => poll rx st'
  | o => o
  end.
Proof.
  intros Hn. cbn [poll]. rewrite !Z.eqb_refl.
  now destruct (Z.eqb_spec (_sensorValues st) 0).
Qed.

Lemma Returned_inj st st' : Returned st = Returned st' -> st = st'.
Proof. intros H. now injection H. Qed.

(** The answer to a poll when the cursor is on a slot of the table. *)
Lemma answer_returns st slot :
  _sensorTable st !! Z.to_nat (_sensorTableIdx st) = Some slot ->
  0 <= _sensorTableIdx st < _sensorValues st -> _sensorValues st < 2 ^ 8 ->
  answer st =
  Returned (set_sensorTableIdx
              ((_sensorTableIdx st + 1) mod _sensorValues st)
              (sendData 0x10 (id slot) (wrap_i32 (val slot)) st)).
Proof.
  intros Hslot Hc Hn. unfold answer. rewrite Hslot.
  rewrite sendData_state. cbn [_sensorTableIdx _sensorValues].
  unfold rem. destruct (Z.eqb_spec (_sensorValues st) 0); [lia |].
  rewrite wrap_u8_small; [reflexivity |].
  pose proof (Z.mod_pos_bound (_sensorTableIdx st + 1) (_sensorValues st)). lia.
Qed.

(** Whatever [answer] returns, the statics other than the cursor are
    untouched, and the cursor is the old one plus one modulo the count. *)
Lemma answer_inv st st' :
  answer st = Returned st' ->
  _sensorTable st' = _sensorTable st /\ _sensorId st' = _sensorId st /\
  _sensorValues st' = _sensorValues st /\
  _sensorTableIdx st' = wrap_u8 ((_sensorTableIdx st + 1) mod _sensorValues st) /\
  _sensorValues st <> 0.
Proof.
  unfold answer.
  destruct (_sensorTable st !! Z.to_nat (_sensorTableIdx st)) as [slot |];
    [| discriminate].
  rewrite sendData_state. cbn [_sensorTableIdx _sensorValues].
  unfold rem. destruct (Z.eqb_spec (_sensorValues st) 0); [discriminate |].
  intros H. apply Returned_inj in H. subst st'.
  cbn [set_sensorTableIdx _sensorTable _sensorId _sensorValues _sensorTableIdx].
  auto.
Qed.

Lemma answer_cases st :
  answer st = Undefined \/ exists st', answer st = Returned st'.
Proof.
  unfold answer.
  destruct (_sensorTable st !! Z.to_nat (_sensorTableIdx st)); [| now left].
  destruct (rem _ _); [right; eauto | now left].
Qed.

(** ** The cursor invariant *)

Section Configured.
Variables sid n : Z.
Hypothesis n_u8 : 0 < n < 2 ^ 8.

Lemma answer_configured st st' :
  configured sid n st -> answer st = Returned st' -> configured sid n st'.
Proof.
  intros (Hid & Hn & Hc & Ht) Ha.
  destruct (answer_inv st st' Ha) as (Et & Ei & Ev & Ec & _).
  unfold configured, cursor_ok, table_ok in *.
  rewrite Et, Ei, Ev, Ec, Hn.
  pose proof (Z.mod_pos_bound (_sensorTableIdx st + 1) n ltac:(lia)).
  rewrite wrap_u8_small by lia. auto.
Qed.

Lemma poll_configured rx : forall st st',
  configured sid n st -> final (poll rx st) = Some st' ->
  configured sid n st'.
Proof.
  induction rx as [| a | a b rx IH1 IH2] using list_pair_ind;
    intros st st' Hst Hfin.
  - cbn in Hfin. now injection Hfin as <-.
  - destruct (Z.eq_dec a SPORT_FRAME_BEGIN) as [-> | Ha].
    + rewrite poll_blocked in Hfin. now injection Hfin as <-.
    + rewrite poll_skip in Hfin by exact Ha. now injection Hfin as <-.
  - destruct (Z.eq_dec a SPORT_FRAME_BEGIN) as [-> | Ha];
      [| rewrite poll_skip in Hfin by exact Ha; eauto].
    destruct (Z.eq_dec b (_sensorId st)) as [-> | Hb];
      [| rewrite poll_mismatch in Hfin by exact Hb; eauto].
    assert (Hn : _sensorValues st <> 0)
      by (destruct Hst as (_ & -> & _); lia).
    rewrite poll_match in Hfin by exact Hn.
    destruct (answer_cases st) as [E | [st1 E]]; rewrite E in Hfin.
    + discriminate.
    + eapply IH1; [| exact Hfin]. eapply answer_configured; eauto.
Qed.

Lemma sendData_configured type i v st :
  configured sid n st -> configured sid n (sendData type i v st).
Proof.
  unfold configured, cursor_ok, table_ok. now rewrite sendData_state.
Qed.

Lemma setSensorData_configured idx i v st st' :
  configured sid n st -> setSensorData idx i v st = Returned st' ->
  configured sid n st'.
Proof.
  unfold setSensorData. destruct (_ && _); [| discriminate].
  intros Hst [= <-]. revert Hst.
  unfold configured, cursor_ok, table_ok. cbn.
  now rewrite !length_alter.
Qed.

Lemma exec_configured o st st' :
  configured sid n st -> final (exec o st) = Some st' ->
  configured sid n st'.
Proof.
  intros Hst. destruct o as [rx | type i v | idx i v]; cbn [exec].
  - now apply poll_configured.
  - intros [= <-]. now apply sendData_configured.
  - destruct (setSensorData idx i v st) as [st1 | st1 |] eqn:E;
      cbn; intros [= <-].
    + eapply setSensorData_configured; eauto.
    + unfold setSensorData in E. destruct (_ && _); discriminate.
Qed.

Lemma run_configured ops : forall st st',
  configured sid n st -> final (run ops st) = Some st' ->
  configured sid n st'.
Proof.
  induction ops as [| o ops IH]; intros st st' Hst Hfin.
  - cbn in Hfin. now injection Hfin as <-.
  - cbn [run] in Hfin.
    destruct (exec o st) as [st1 | st1 |] eqn:E.
    + apply (IH st1 st'); [| exact Hfin].
      apply (exec_configured o st); [exact Hst | now rewrite E].
    + apply (exec_configured o st); [exact Hst | now rewrite E].
    + discriminate.
Qed.

Lemma begin_configured L R c1 c3 s2 :
  configured sid n (begin L R sid n (power_on c1 c3 s2)).
Proof.
  unfold configured, cursor_ok, table_ok. cbn. repeat split; lia.
Qed.
End Configured.

(** ** Round robin *)

Lemma mod_wrap_once c j n :
  0 <= c < n -> 0 <= j <= n ->
  (c + j) mod n = if c + j <? n then c + j else c + j - n.
Proof.
  intros Hc Hj. destruct (Z.ltb_spec (c + j) n).
  - apply Z.mod_small. lia.
  - symmetry. apply (Z.mod_unique _ _ 1); lia.
Qed.

Section RoundRobin.
Variables sid n : Z.
Hypothesis n_active : 0 < n <= MAX_SENSORS.

Lemma cursor_slot st :
  configured sid n st ->
  _sensorTable st !! Z.to_nat (_sensorTableIdx st) =
  Some (_sensorTable st !!! Z.to_nat (_sensorTableIdx st)).
Proof.
  intros (_ & Hn & Hc & Ht). unfold cursor_ok, table_ok, MAX_SENSORS in *.
  apply list_lookup_lookup_total_lt. lia.
Qed.

(** One poll frame addressed to this device. *)
Lemma poll_answered rx st :
  configured sid n st ->
  poll (SPORT_FRAME_BEGIN :: sid :: rx) st =
  poll rx
    (set_sensorTableIdx ((_sensorTableIdx st + 1) mod n)
       (sendData 0x10
          (id (_sensorTable st !!! Z.to_nat (_sensorTableIdx st)))
          (wrap_i32 (val (_sensorTable st !!! Z.to_nat (_sensorTableIdx st))))
          st)).
Proof.
  intros Hst. pose proof (cursor_slot st Hst) as Hslot.
  destruct Hst as (Hid & Hn & Hc & Ht).
  unfold cursor_ok, MAX_SENSORS in *.
  rewrite <- Hid, poll_match by lia.
  rewrite (answer_returns st _ Hslot) by lia. now rewrite Hn.
Qed.

Lemma polls_round_robin k : forall st,
  configured sid n st ->
  exists st' es,
    run (replicate k (OpPoll [SPORT_FRAME_BEGIN; sid])) st = Returned st' /\
    configured sid n st' /\
    _sensorTable st' = _sensorTable st /\
    _sensorTableIdx st' = (_sensorTableIdx st + Z.of_nat k) mod n /\
    trace st' = trace st ++ es /\
    written es =
    concat (map (fun j : nat =>
                   slot_frame (_sensorTable st !!!
                     Z.to_nat ((_sensorTableIdx st + Z.of_nat j) mod n)))
                (seq 0 k)).
Proof.
  unfold MAX_SENSORS in n_active.
  induction k as [| k IH]; intros st Hst.
  - exists st, [].
    split; [reflexivity |]. split; [exact Hst |]. split; [reflexivity |].
    destruct Hst as (Hid & Hn & Hc & Ht). unfold cursor_ok in Hc.
    split; [| split].
    + change (Z.of_nat 0) with 0. rewrite Z.add_0_r, Z.mod_small; lia.
    + now rewrite app_nil_r.
    + reflexivity.
  - cbn [replicate run exec]. rewrite (poll_answered [] st Hst). cbn [poll].
    set (slot := _sensorTable st !!! Z.to_nat (_sensorTableIdx st)).
    set (st1 := set_sensorTableIdx _ _).
    assert (Hst1 : configured sid n st1).
    { destruct Hst as (Hid & Hn & Hc & Ht). subst st1.
      unfold configured, cursor_ok, table_ok in *.
      rewrite sendData_state.
      cbn [set_sensorTableIdx _sensorTable _sensorId _sensorValues
           _sensorTableIdx].
      pose proof (Z.mod_pos_bound (_sensorTableIdx st + 1) n ltac:(lia)) as Hm.
      split; [exact Hid |]. split; [exact Hn |].
      split; [rewrite Hn; exact Hm | exact Ht]. }
    assert (Et : _sensorTable st1 = _sensorTable st)
      by (subst st1; now rewrite sendData_state).
    assert (Ei : _sensorTableIdx st1 = (_sensorTableIdx st + 1) mod n)
      by (subst st1; now rewrite sendData_state).
    assert (Etr : exists es1, trace st1 = trace st ++ es1 /\
                              written es1 = slot_frame slot).
    { subst st1. eexists. rewrite sendData_state. cbn [set_sensorTableIdx trace].
      split; [reflexivity |].
      cbn [written]. rewrite written_app, written_writes. cbn [written].
      now rewrite app_nil_r. }
    destruct Etr as (es1 & Etr & Ew1).
    destruct (IH st1 Hst1) as (st' & es & Hrun & Hst' & Ht' & Hi' & Htr' & Hw).
    exists st', (es1 ++ es). rewrite Hrun.
    destruct Hst as (Hid & Hn & Hc & Ht). unfold cursor_ok in Hc.
    split; [reflexivity |]. split; [exact Hst' |].
    split; [| split; [| split]].
    + congruence.
    + rewrite Hi', Ei, Zplus_mod_idemp_l. f_equal. lia.
    + rewrite Htr', Etr. now rewrite app_assoc.
    + rewrite written_app, Ew1, Hw, Et, Ei.
      cbn [seq map concat]. rewrite <- seq_shift, map_map.
      change (Z.of_nat 0) with 0.
      rewrite Z.add_0_r, (Z.mod_small (_sensorTableIdx st) n) by lia.
      fold slot. apply (f_equal (app (slot_frame slot))).
      apply (f_equal (@concat Z)). apply map_ext. intros j.
      rewrite Zplus_mod_idemp_l.
      now replace (_sensorTableIdx st + 1 + Z.of_nat j)
        with (_sensorTableIdx st + Z.of_nat (S j)) by lia.
Qed.
End RoundRobin.

(** ** The model at work *)

Example CRC_of_scenario_packet :
  CRC [0x10; 0x00; 0x06; 0xD2; 0x04; 0x00; 0x00; 0x00] = 0x13.
Proof. vm_compute. reflexivity. Qed.

Example raw_packet_of_negative :
  packed 0x10 0x0600 (-2) = [0x10; 0x00; 0x06; 0xFE; 0xFF; 0xFF; 0xFF; 0xFF] /\
  raw_packet 0x10 0x0600 (-2) =
    [0x10; 0x00; 0x06; 0xFE; 0xFF; 0xFF; 0xFF; 0xEA].
Proof. split; vm_compute; reflexivity. Qed.

Example frame_with_marker_in_value :
  slot_frame {| id := 0x0610; val := 0x7E |} =
  [0x10; 0x10; 0x06; 0x7D; 0x5E; 0x00; 0x00; 0x00; 0x5B].
Proof. vm_compute. reflexivity. Qed.

Example poll_waits_for_id :
  poll [0x55; 0x7E] (power_on 0 0 0) = Blocked (power_on 0 0 0).
Proof. reflexivity. Qed.

(** A count above the table's capacity lets the cursor leave the table. *)
Example poll_past_the_table :
  run (replicate 9 (OpPoll [0x7E; 0x06]))
      (begin 0x80 0x20 0x06 9 (power_on 0 0 0)) = Undefined.
Proof. vm_compute. reflexivity. Qed.

(** * The claims *)

Lemma raw_packet_placeholder type id val :
  <[7%nat := 0]> (raw_packet type id val) = <[7%nat := 0]> (packed type id val).
Proof. unfold raw_packet. apply list_insert_insert_eq. Qed.

(** C1.  For every type (u8), logical id (u16) and value (i32, negative
    ones included), byte 7 of the raw packet [sendData] builds is the
    checksum of that packet with a zero in byte 7: the checksum as the
    code's [CRC] computes it, which on such a packet is the fold-carry
    one's-complement checksum of section 4.1. *)
Theorem sendData_checksum_byte type id val :
  is_u8 type -> is_u16 id -> is_i32 val ->
  raw_packet type id val !! 7%nat =
    Some (CRC (<[7%nat := 0]> (raw_packet type id val))) /\
  CRC (<[7%nat := 0]> (raw_packet type id val)) =
    checksum_4_1 (<[7%nat := 0]> (raw_packet type id val)).
Proof.
  intros Ht Hi Hv. rewrite raw_packet_placeholder. split.
  - unfold raw_packet. rewrite list_lookup_insert_eq
      by (rewrite length_packed; lia).
    rewrite <- CRC_packed_placeholder by assumption. reflexivity.
  - apply CRC_is_checksum_4_1.
    + rewrite length_insert. apply length_packed.
    + apply Forall_insert; [apply packed_u8 | unfold is_u8; lia].
Qed.

Lemma sendData_checksum_byte_witness :
  is_u8 0x10 /\ is_u16 0x0600 /\ is_i32 (-1234) /\
  raw_packet 0x10 0x0600 (-1234) !! 7%nat =
    Some (CRC (<[7%nat := 0]> (raw_packet 0x10 0x0600 (-1234)))) /\
  CRC (<[7%nat := 0]> (raw_packet 0x10 0x0600 (-1234))) =
    checksum_4_1 (<[7%nat := 0]> (raw_packet 0x10 0x0600 (-1234))).
Proof.
  assert (H1 : is_u8 0x10) by (unfold is_u8; lia).
  assert (H2 : is_u16 0x0600) by (unfold is_u16; lia).
  assert (H3 : is_i32 (-1234)) by (unfold is_i32; lia).
  exact (conj H1 (conj H2 (conj H3
           (sendData_checksum_byte 0x10 0x0600 (-1234) H1 H2 H3)))).
Defined.

(** C2.  For every type (u8), logical id (u16) and value (i32), the raw
    packet of [sendData] is the type, the two bytes of the id low byte
    first, the four bytes of the value's 32-bit two's complement low byte
    first, and the checksum of these seven bytes followed by a zero.  In
    particular [sendData (0x10, 0x0600, 1234)] builds
    [10 00 06 D2 04 00 00 CRC]. *)
Theorem sendData_packet_layout :
  (forall type id val,
     is_u8 type -> is_u16 id -> is_i32 val ->
     raw_packet type id val =
     type :: le_bytes 2 id ++ le_bytes 4 (val mod 2 ^ 32) ++
     [CRC (type :: le_bytes 2 id ++ le_bytes 4 (val mod 2 ^ 32) ++ [0])]) /\
  raw_packet 0x10 0x0600 1234 =
    [0x10; 0x00; 0x06; 0xD2; 0x04; 0x00; 0x00;
     CRC [0x10; 0x00; 0x06; 0xD2; 0x04; 0x00; 0x00; 0]].
Proof.
  split; [| vm_compute; reflexivity].
  intros type id val Ht Hi Hv.
  pose proof (CRC_packed_placeholder type id val Ht Hi Hv) as Hcrc.
  unfold raw_packet. rewrite Hcrc. clear Hcrc.
  rewrite packed_layout by assumption.
  set (body := type :: le_bytes 2 id ++ le_bytes 4 (val mod 2 ^ 32)).
  change (type :: le_bytes 2 id ++ le_bytes 4 (val mod 2 ^ 32) ++ [sign_byte val])
    with (body ++ [sign_byte val]).
  change (type :: le_bytes 2 id ++ le_bytes 4 (val mod 2 ^ 32) ++ [0])
    with (body ++ [0]).
  assert (Hlen : length body = 7%nat).
  { unfold body. cbn [length]. now rewrite length_app, !length_le_bytes. }
  assert (Hins : forall x y, <[7%nat := x]> (body ++ [y]) = body ++ [x]).
  { intros x y. rewrite <- Hlen, <- (Nat.add_0_r (length body)).
    now rewrite (insert_app_r body [y] 0 x). }
  rewrite !Hins.
  change (type :: le_bytes 2 id ++ le_bytes 4 (val mod 2 ^ 32) ++
          [CRC (body ++ [0])]) with (body ++ [CRC (body ++ [0])]).
  reflexivity.
Qed.

Lemma sendData_packet_layout_witness :
  is_u8 0x10 /\ is_u16 0x0610 /\ is_i32 (-2) /\
  raw_packet 0x10 0x0610 (-2) =
  0x10 :: le_bytes 2 0x0610 ++ le_bytes 4 ((-2) mod 2 ^ 32) ++
  [CRC (0x10 :: le_bytes 2 0x0610 ++ le_bytes 4 ((-2) mod 2 ^ 32) ++ [0])].
Proof.
  assert (H1 : is_u8 0x10) by (unfold is_u8; lia).
  assert (H2 : is_u16 0x0610) by (unfold is_u16; lia).
  assert (H3 : is_i32 (-2)) by (unfold is_i32; lia).
  exact (conj H1 (conj H2 (conj H3
           (proj1 sendData_packet_layout 0x10 0x0610 (-2) H1 H2 H3)))).
Defined.

(** C3.  For every byte [v] the transmit loop of [sendData] writes [v]
    alone when [v] is neither [0x7E] nor [0x7D], and [0x7D] followed by
    [v XOR 0x20] when it is one of them; the bytes one [sendData] call
    writes are the stuffing of its raw packet, and de-stuffing them as
    section 4.2 prescribes gives the eight raw bytes back. *)
Theorem stuffing_escapes_markers :
  (forall v st,
     is_u8 v ->
     (v <> 0x7E -> v <> 0x7D -> output_since st (send_byte v st) = [v]) /\
     (v = 0x7E \/ v = 0x7D ->
      output_since st (send_byte v st) = [0x7D; Z.lxor v 0x20])) /\
  (forall type id val st,
     output_since st (sendData type id val st) =
       flat_map stuff (raw_packet type id val) /\
     destuff (output_since st (sendData type id val st)) =
       raw_packet type id val).
Proof.
  split.
  - intros v st Hv. rewrite send_byte_log, output_since_log by exact Hv.
    rewrite written_writes. unfold stuff. split.
    + intros H1 H2.
      destruct (Z.eqb_spec v 0x7E); [contradiction |].
      destruct (Z.eqb_spec v 0x7D); [contradiction | reflexivity].
    + intros [-> | ->]; reflexivity.
  - intros type id val st. rewrite sendData_output. split; [reflexivity |].
    apply destuff_flat_map_stuff.
Qed.

Lemma stuffing_escapes_markers_witness :
  is_u8 0x7E /\
  output_since (power_on 0 0 0) (send_byte 0x7E (power_on 0 0 0)) =
    [0x7D; Z.lxor 0x7E 0x20].
Proof.
  assert (H : is_u8 0x7E) by (unfold is_u8; lia).
  split; [exact H |].
  apply (proj1 stuffing_escapes_markers 0x7E (power_on 0 0 0) H).
  left. reflexivity.
Defined.

Lemma writes_under_tx ws rest :
  writes_while_tx true (map EvWrite ws ++ rest) = writes_while_tx true rest.
Proof. induction ws as [| w ws IH]; [reflexivity | exact IH]. Qed.

Lemma length_flat_map_stuff l : (length l <= length (flat_map stuff l))%nat.
Proof.
  induction l as [| v l IH]; [reflexivity |].
  cbn [flat_map]. rewrite length_app. unfold stuff at 1.
  destruct (_ || _); cbn [length]; lia.
Qed.

(** C9.  The effects of one [sendData] call are, in this order: the write
    to [UART0_C3] that sets the transmit direction, the writes of the
    stuffed packet bytes (at least eight), the flush, and the write to
    [UART0_C3] that clears the transmit direction; so every byte is
    written while transmit is asserted, whatever the direction was before
    the call. *)
Theorem sendData_transmit_window type id val st :
  trace (sendData type id val st) =
    trace st ++
    EvReg UART0_C3 (tx_on (sportSerial_UART_C3 st)) ::
    map EvWrite (flat_map stuff (raw_packet type id val)) ++
    [EvFlush; EvReg UART0_C3 (tx_off (sportSerial_UART_C3 st))] /\
  tx_asserted (tx_on (sportSerial_UART_C3 st)) = true /\
  tx_asserted (tx_off (sportSerial_UART_C3 st)) = false /\
  (8 <= length (flat_map stuff (raw_packet type id val)))%nat /\
  forall tx,
    writes_while_tx tx
      (drop (length (trace st)) (trace (sendData type id val st))) = true.
Proof.
  split; [apply sendData_log |].
  split; [apply tx_asserted_on |].
  split; [apply tx_asserted_off |].
  split.
  - rewrite <- (length_raw_packet type id val) at 1.
    apply length_flat_map_stuff.
  - intros tx. rewrite sendData_log, drop_app_length.
    cbn [writes_while_tx]. rewrite tx_asserted_on.
    rewrite writes_under_tx. reflexivity.
Qed.

(** C5, as stated, fails: replacing a [0x00] by [0xFF] next to a non-zero
    byte leaves the checksum unchanged. *)
Lemma crc_single_byte_collision :
  ~ (forall (b : list Z) (i : nat) (v : Z),
       length b = 8%nat -> Forall is_u8 b -> (i < 8)%nat -> is_u8 v ->
       v <> b !!! i -> CRC (<[i := v]> b) <> CRC b).
Proof.
  intros H.
  apply (H [1; 0; 0; 0; 0; 0; 0; 0] 1%nat 0xFF).
  - reflexivity.
  - repeat (apply Forall_cons_2; [unfold is_u8; lia |]). apply Forall_nil_2.
  - lia.
  - unfold is_u8. lia.
  - discriminate.
  - vm_compute. reflexivity.
Qed.

(** C5, amended.  For every 8-byte input [b], index [i] and byte [v]
    other than [b[i]], replacing byte [i] by [v] leaves the checksum
    unchanged exactly when one of [b[i]], [v] is [0x00], the other is
    [0xFF] and some other byte of [b] is non-zero; in every other case
    the checksum changes.  Equal inputs have equal checksums. *)
Theorem crc_single_byte_edit (b : list Z) (i : nat) (v : Z) :
  length b = 8%nat -> Forall is_u8 b -> (i < 8)%nat -> is_u8 v ->
  v <> b !!! i ->
  (CRC (<[i := v]> b) = CRC b <->
   ((b !!! i = 0x00 /\ v = 0xFF) \/ (b !!! i = 0xFF /\ v = 0x00)) /\
   exists j : nat, (j < 8)%nat /\ j <> i /\ b !!! j <> 0) /\
  (forall b' : list Z, b' = b -> CRC b' = CRC b).
Proof.
  intros Hlen Hb Hi Hv Hne. split; [| now intros b' ->].
  rewrite (CRC_edit_collides_iff b i v Hlen Hb Hi Hv Hne).
  pose proof (other_byte_nonzero b i Hb ltac:(lia)) as Ho.
  rewrite Hlen in Ho. rewrite Ho. reflexivity.
Qed.

Lemma crc_single_byte_edit_witness :
  let b := [0x10; 0x00; 0x06; 0xD2; 0x04; 0x00; 0x00; 0x00] in
  length b = 8%nat /\ Forall is_u8 b /\ (3 < 8)%nat /\ is_u8 0xD3 /\
  0xD3 <> b !!! 3%nat /\
  ((CRC (<[3%nat := 0xD3]> b) = CRC b <->
    ((b !!! 3%nat = 0x00 /\ 0xD3 = 0xFF) \/ (b !!! 3%nat = 0xFF /\ 0xD3 = 0x00)) /\
    exists j : nat, (j < 8)%nat /\ j <> 3%nat /\ b !!! j <> 0) /\
   (forall b' : list Z, b' = b -> CRC b' = CRC b)).
Proof.
  intros b.
  assert (H1 : length b = 8%nat) by reflexivity.
  assert (H2 : Forall is_u8 b).
  { repeat (apply Forall_cons_2; [unfold is_u8; lia |]). apply Forall_nil_2. }
  assert (H3 : (3 < 8)%nat) by lia.
  assert (H4 : is_u8 0xD3) by (unfold is_u8; lia).
  assert (H5 : 0xD3 <> b !!! 3%nat) by discriminate.
  exact (conj H1 (conj H2 (conj H3 (conj H4 (conj H5
           (crc_single_byte_edit b 3 0xD3 H1 H2 H3 H4 H5)))))).
Defined.

(** C4.  With [n] active slots ([0 < n <= MAX_SENSORS]) and the cursor at
    [c < n], [k] consecutive polls, each the frame marker followed by the
    configured sensor id, all return and write the packets of the slots
    [(c + j) mod n] for [j = 0 .. k-1], in this order, each with the
    slot's current content.  These indices run from the cursor upwards and
    wrap to [0]; over [n] polls every slot index below [n] occurs exactly
    once, and the poll after those takes the first slot again.  In
    particular, after [begin (0x06, 2)] with slot 0 set to [(0x0600, 100)]
    and slot 1 to [(0x0610, 200)], feeding [7E 06] twice writes the packet
    of slot 0 and then that of slot 1. *)
Theorem poll_round_robin :
  (forall sid n st,
     0 < n <= MAX_SENSORS -> configured sid n st ->
     (forall k : nat,
        exists st',
          run (replicate k (OpPoll [SPORT_FRAME_BEGIN; sid])) st = Returned st' /\
          output_since st st' =
            concat (map (fun j : nat =>
                           slot_frame (_sensorTable st !!!
                             Z.to_nat ((_sensorTableIdx st + Z.of_nat j) mod n)))
                        (seq 0 k)) /\
          _sensorTable st' = _sensorTable st /\
          _sensorTableIdx st' = (_sensorTableIdx st + Z.of_nat k) mod n) /\
     (forall j, 0 <= j < n ->
        (_sensorTableIdx st + j) mod n =
        if _sensorTableIdx st + j <? n then _sensorTableIdx st + j
        else _sensorTableIdx st + j - n) /\
     (forall i, 0 <= i < n ->
        exists j, 0 <= j < n /\ (_sensorTableIdx st + j) mod n = i /\
                  forall j', 0 <= j' < n ->
                             (_sensorTableIdx st + j') mod n = i -> j' = j) /\
     (_sensorTableIdx st + n) mod n = _sensorTableIdx st) /\
  (forall L R c1 c3 s2,
     exists st',
       run [OpSetSensorData 0 0x0600 100; OpSetSensorData 1 0x0610 200;
            OpPoll [0x7E; 0x06]; OpPoll [0x7E; 0x06]]
           (begin L R 0x06 2 (power_on c1 c3 s2)) = Returned st' /\
       written (trace st') =
         slot_frame {| id := 0x0600; val := 100 |} ++
         slot_frame {| id := 0x0610; val := 200 |} /\
       slot_frame {| id := 0x0600; val := 100 |} =
         [0x10; 0x00; 0x06; 0x64; 0x00; 0x00; 0x00; 0x85] /\
       slot_frame {| id := 0x0610; val := 200 |} =
         [0x10; 0x10; 0x06; 0xC8; 0x00; 0x00; 0x00; 0x11]).
Proof.
  split.
  - intros sid n st Hn Hst.
    assert (Hc : 0 <= _sensorTableIdx st < n).
    { destruct Hst as (_ & Hv & Hc & _). unfold cursor_ok in Hc. lia. }
    split; [| split; [| split]].
    + intros k.
      destruct (polls_round_robin sid n Hn k st Hst)
        as (st' & es & Hrun & _ & Ht & Hi & Htr & Hw).
      exists st'. split; [exact Hrun |]. split; [| split; assumption].
      unfold output_since. rewrite Htr, drop_app_length. exact Hw.
    + intros j Hj. apply mod_wrap_once; lia.
    + intros i Hi.
      assert (Hwrap : forall j, 0 <= j < n ->
                (_sensorTableIdx st + j) mod n =
                if _sensorTableIdx st + j <? n then _sensorTableIdx st + j
                else _sensorTableIdx st + j - n)
        by (intros j Hj; apply mod_wrap_once; lia).
      revert Hc Hwrap. generalize (_sensorTableIdx st). intros c Hc Hwrap.
      exists (if c <=? i then i - c else i - c + n).
      assert (Hj : 0 <= (if c <=? i then i - c else i - c + n) < n)
        by (destruct (Z.leb_spec c i); lia).
      split; [exact Hj |]. split.
      * rewrite (Hwrap _ Hj).
        destruct (Z.leb_spec c i);
          match goal with |- context [?a <? ?b] => destruct (Z.ltb_spec a b) end;
          lia.
      * intros j' Hj'. rewrite (Hwrap _ Hj').
        destruct (Z.leb_spec c i), (Z.ltb_spec (c + j') n); lia.
    + rewrite <- (Z.mul_1_l n) at 1. rewrite Z.mod_add by lia.
      apply Z.mod_small. exact Hc.
  - intros L R c1 c3 s2. eexists.
    split; [vm_compute; reflexivity |].
    split; [vm_compute; reflexivity |].
    split; vm_compute; reflexivity.
Qed.

Lemma poll_round_robin_witness :
  let st := begin 0x80 0x20 0x06 2 (power_on 0 0 0) in
  0 < 2 <= MAX_SENSORS /\ configured 0x06 2 st /\
  exists st',
    run (replicate 3 (OpPoll [SPORT_FRAME_BEGIN; 0x06])) st = Returned st' /\
    output_since st st' =
      concat (map (fun j : nat =>
                     slot_frame (_sensorTable st !!!
                       Z.to_nat ((_sensorTableIdx st + Z.of_nat j) mod 2)))
                  (seq 0 3)) /\
    _sensorTable st' = _sensorTable st /\
    _sensorTableIdx st' = (_sensorTableIdx st + Z.of_nat 3) mod 2.
Proof.
  intros st.
  assert (H1 : 0 < 2 <= MAX_SENSORS) by (unfold MAX_SENSORS; lia).
  assert (H2 : configured 0x06 2 st) by (apply begin_configured; lia).
  split; [exact H1 |]. split; [exact H2 |].
  exact (proj1 (proj1 poll_round_robin 0x06 2 st H1 H2) 3%nat).
Defined.

(** C6.  When [poll] reads the frame marker [0x7E] followed by a byte
    other than the configured sensor id, it goes on with the rest of the
    input from the state it was in, as it does at the start of a call: no
    effect, table and cursor as before; when nothing follows, the call
    returns that unchanged state and reports nothing. *)
Theorem poll_ignores_other_id st c rx :
  c <> _sensorId st ->
  poll (SPORT_FRAME_BEGIN :: c :: rx) st = poll rx st /\
  poll [SPORT_FRAME_BEGIN; c] st = Returned st.
Proof.
  intros Hc. split; [now apply poll_mismatch |].
  rewrite poll_mismatch by exact Hc. reflexivity.
Qed.

Lemma poll_ignores_other_id_witness :
  let st := begin 0x80 0x20 0x06 2 (power_on 0 0 0) in
  0x07 <> _sensorId st /\
  poll (SPORT_FRAME_BEGIN :: 0x07 :: [SPORT_FRAME_BEGIN; 0x06]) st =
    poll [SPORT_FRAME_BEGIN; 0x06] st /\
  poll [SPORT_FRAME_BEGIN; 0x07] st = Returned st.
Proof.
  intros st.
  assert (H : 0x07 <> _sensorId st) by discriminate.
  exact (conj H (poll_ignores_other_id st 0x07 [SPORT_FRAME_BEGIN; 0x06] H)).
Defined.

Lemma poll_inactive_all st :
  _sensorValues st = 0 ->
  forall rx, poll rx st = Returned st \/ poll rx st = Blocked st.
Proof.
  intros Hn rx.
  induction rx as [| a | a b rx IH1 IH2] using list_pair_ind.
  - now left.
  - destruct (Z.eq_dec a SPORT_FRAME_BEGIN) as [-> | Ha].
    + right. apply poll_blocked.
    + left. now rewrite poll_skip.
  - destruct (Z.eq_dec a SPORT_FRAME_BEGIN) as [-> | Ha].
    + now rewrite poll_inactive.
    + now rewrite poll_skip.
Qed.

(** C7.  With [activeCount = 0], whatever bytes [poll] reads, the call
    returns or waits for an id byte with the state exactly as it was:
    nothing is transmitted, and the outcome is never the undefined one of
    a remainder by zero.  The same holds over any number of calls. *)
Theorem poll_silent_when_inactive st :
  _sensorValues st = 0 ->
  (forall rx, poll rx st = Returned st \/ poll rx st = Blocked st) /\
  (forall rxs, final (run (map OpPoll rxs) st) = Some st).
Proof.
  intros Hn. split; [now apply poll_inactive_all |].
  induction rxs as [| rx rxs IH]; [reflexivity |].
  cbn [map run exec].
  destruct (poll_inactive_all st Hn rx) as [-> | ->]; [exact IH | reflexivity].
Qed.

Lemma poll_silent_when_inactive_witness :
  let st := begin 0x80 0x20 0x06 0 (power_on 0 0 0) in
  _sensorValues st = 0 /\
  (forall rx, poll rx st = Returned st \/ poll rx st = Blocked st) /\
  (forall rxs, final (run (map OpPoll rxs) st) = Some st).
Proof.
  intros st.
  assert (H : _sensorValues st = 0) by reflexivity.
  exact (conj H (poll_silent_when_inactive st H)).
Defined.

(** C8.  After [begin (sensorId, n)] on the freshly started device, with
    [0 < n] (a [uint8_t]), the cursor is below the count, and it is so in
    every state that any sequence of [poll], [sendData] and
    [setSensorData] calls reaches, with the count still [n]; each answer
    to a poll moves the cursor to its successor modulo [n]; and with
    [n <= MAX_SENSORS] a poll addressed to the device is always
    answered. *)
Theorem cursor_below_count L R sid n c1 c3 s2 :
  0 < n < 2 ^ 8 ->
  cursor_ok (begin L R sid n (power_on c1 c3 s2)) /\
  (forall ops st,
     final (run ops (begin L R sid n (power_on c1 c3 s2))) = Some st ->
     cursor_ok st /\ _sensorValues st = n) /\
  (forall ops st st',
     run ops (begin L R sid n (power_on c1 c3 s2)) = Returned st ->
     answer st = Returned st' ->
     _sensorTableIdx st' = (_sensorTableIdx st + 1) mod n) /\
  (forall ops st rx,
     n <= MAX_SENSORS ->
     run ops (begin L R sid n (power_on c1 c3 s2)) = Returned st ->
     exists st',
       answer st = Returned st' /\
       poll (SPORT_FRAME_BEGIN :: sid :: rx) st = poll rx st').
Proof.
  intros Hn.
  pose proof (begin_configured sid n ltac:(lia) L R c1 c3 s2) as H0.
  assert (Hreach : forall ops st,
            final (run ops (begin L R sid n (power_on c1 c3 s2))) = Some st ->
            configured sid n st)
    by (intros ops st; apply (run_configured sid n Hn ops _ st H0)).
  split; [apply H0 |]. split; [| split].
  - intros ops st Hfin. destruct (Hreach ops st Hfin) as (_ & Hv & Hc & _). auto.
  - intros ops st st' Hrun Ha.
    assert (Hst : configured sid n st) by (apply (Hreach ops); now rewrite Hrun).
    destruct Hst as (_ & Hv & Hc & _). unfold cursor_ok in Hc.
    destruct (answer_inv st st' Ha) as (_ & _ & _ & -> & _).
    rewrite Hv in *.
    pose proof (Z.mod_pos_bound (_sensorTableIdx st + 1) n ltac:(lia)).
    apply wrap_u8_small. lia.
  - intros ops st rx Hn8 Hrun.
    assert (Hst : configured sid n st) by (apply (Hreach ops); now rewrite Hrun).
    pose proof (cursor_slot sid n ltac:(lia) st Hst) as Hslot.
    destruct Hst as (Hid & Hv & Hc & _). unfold cursor_ok in Hc.
    eexists. split.
    + apply (answer_returns st _ Hslot); lia.
    + rewrite <- Hid, poll_match by lia.
      rewrite (answer_returns st _ Hslot) by lia. reflexivity.
Qed.

Lemma cursor_below_count_witness :
  0 < 2 < 2 ^ 8 /\
  cursor_ok (begin 0x80 0x20 0x06 2 (power_on 0 0 0)) /\
  forall ops st,
    final (run ops (begin 0x80 0x20 0x06 2 (power_on 0 0 0))) = Some st ->
    cursor_ok st /\ _sensorValues st = 2.
Proof.
  assert (H : 0 < 2 < 2 ^ 8) by lia.
  pose proof (cursor_below_count 0x80 0x20 0x06 2 0 0 0 H) as (H1 & H2 & _).
  exact (conj H (conj H1 H2)).
Defined.

(** C10.  For every index below [MAX_SENSORS], [setSensorData (idx, id,
    val)] returns with slot [idx] holding [(id, val)], whatever it held
    before, and with every other slot, the cursor, the sensor id, the
    count, the registers and the trace as they were. *)
Theorem setSensorData_frame idx i v st :
  0 <= idx < MAX_SENSORS -> table_ok st ->
  exists st',
    setSensorData idx i v st = Returned st' /\
    _sensorTable st' !! Z.to_nat idx = Some {| id := i; val := v |} /\
    (forall j : nat, j <> Z.to_nat idx ->
                     _sensorTable st' !! j = _sensorTable st !! j) /\
    length (_sensorTable st') = length (_sensorTable st) /\
    _sensorTableIdx st' = _sensorTableIdx st /\
    _sensorId st' = _sensorId st /\
    _sensorValues st' = _sensorValues st /\
    sportSerial_UART_C1 st' = sportSerial_UART_C1 st /\
    sportSerial_UART_C3 st' = sportSerial_UART_C3 st /\
    sportSerial_UART_S2 st' = sportSerial_UART_S2 st /\
    trace st' = trace st.
Proof.
  intros Hidx Ht. unfold table_ok, MAX_SENSORS in *. unfold setSensorData.
  destruct (Z.leb_spec 0 idx); [| lia].
  destruct (Z.ltb_spec idx MAX_SENSORS); [| unfold MAX_SENSORS in *; lia].
  cbn [andb]. eexists. split; [reflexivity |].
  cbn [set_sensorTable _sensorTable _sensorTableIdx _sensorId _sensorValues
       sportSerial_UART_C1 sportSerial_UART_C3 sportSerial_UART_S2 trace].
  split; [| split; [| split]].
  - rewrite !list_lookup_alter_eq.
    destruct (lookup_lt_is_Some_2 (_sensorTable st) (Z.to_nat idx) ltac:(lia))
      as [s ->].
    reflexivity.
  - intros j Hj. now rewrite !list_lookup_alter_ne by congruence.
  - now rewrite !length_alter.
  - repeat split.
Qed.

Lemma setSensorData_frame_witness :
  0 <= 3 < MAX_SENSORS /\ table_ok (power_on 0 0 0) /\
  exists st',
    setSensorData 3 0x0610 200 (power_on 0 0 0) = Returned st' /\
    _sensorTable st' !! Z.to_nat 3 = Some {| id := 0x0610; val := 200 |}.
Proof.
  assert (H1 : 0 <= 3 < MAX_SENSORS) by (unfold MAX_SENSORS; lia).
  assert (H2 : table_ok (power_on 0 0 0)) by reflexivity.
  destruct (setSensorData_frame 3 0x0610 200 (power_on 0 0 0) H1 H2)
    as (st' & E1 & E2 & _).
  exact (conj H1 (conj H2 (ex_intro _ st' (conj E1 E2)))).
Defined.

(** * Further properties of the code *)

(** ** The checksum as a function of the byte sum *)

Lemma CRC_acc_closed (p : list Z) :
  length p = 8%nat -> Forall is_u8 p ->
  CRC_acc p = if byte_sum p =? 0 then 0 else (byte_sum p - 1) mod 255 + 1.
Proof.
  intros Hlen Hp. rewrite (CRC_acc_fold p Hlen).
  destruct (CRC_fold_spec p 0 ltac:(lia) Hp) as (Hr & [k Hk] & Hz).
  revert Hr Hk Hz. generalize (fold_left CRC_body p 0). generalize (byte_sum p).
  intros s a Hr Hk Hz.
  destruct (Z.eqb_spec s 0) as [Hs | Hs].
  - apply Hz. split; [reflexivity | exact Hs].
  - assert (Ha : a <> 0) by (intros Ha; apply Hs, Hz, Ha).
    rewrite <- (Z.mod_unique (s - 1) 255 k (a - 1)); lia.
Qed.

(** X1.  On eight bytes [CRC] depends on the bytes through their plain
    sum only: it is [0xFF] when all bytes are zero, and otherwise
    [254 - ((sum - 1) mod 255)]. *)
Theorem CRC_closed_form (p : list Z) :
  length p = 8%nat -> Forall is_u8 p ->
  CRC p = if byte_sum p =? 0 then 0xFF else 254 - (byte_sum p - 1) mod 255.
Proof.
  intros Hlen Hp.
  rewrite (CRC_of_acc p Hlen Hp), (CRC_acc_closed p Hlen Hp).
  destruct (byte_sum p =? 0); lia.
Qed.

Lemma CRC_closed_form_witness :
  length [0x10; 0x00; 0x06; 0xD2; 0x04; 0x00; 0x00; 0x00] = 8%nat /\
  Forall is_u8 [0x10; 0x00; 0x06; 0xD2; 0x04; 0x00; 0x00; 0x00] /\
  CRC [0x10; 0x00; 0x06; 0xD2; 0x04; 0x00; 0x00; 0x00] =
    if byte_sum [0x10; 0x00; 0x06; 0xD2; 0x04; 0x00; 0x00; 0x00] =? 0
    then 0xFF
    else 254 - (byte_sum [0x10; 0x00; 0x06; 0xD2; 0x04; 0x00; 0x00; 0x00] - 1)
               mod 255.
Proof.
  assert (H1 : length [0x10; 0x00; 0x06; 0xD2; 0x04; 0x00; 0x00; 0x00] = 8%nat)
    by reflexivity.
  assert (H2 : Forall is_u8 [0x10; 0x00; 0x06; 0xD2; 0x04; 0x00; 0x00; 0x00]).
  { repeat (apply Forall_cons_2; [unfold is_u8; lia |]). apply Forall_nil_2. }
  exact (conj H1 (conj H2 (CRC_closed_form _ H1 H2))).
Defined.

Lemma byte_sum_Permutation (p q : list Z) : p ≡ₚ q -> byte_sum p = byte_sum q.
Proof.
  induction 1 as [| x p q _ IH | x y p | p q r _ IH1 _ IH2].
  - reflexivity.
  - rewrite !byte_sum_cons, IH. reflexivity.
  - rewrite !byte_sum_cons. lia.
  - now rewrite IH1.
Qed.

(** X2.  [CRC] does not see the order of the bytes: two 8-byte packets
    that are permutations of each other have the same checksum. *)
Theorem CRC_order_blind (p q : list Z) :
  length p = 8%nat -> Forall is_u8 p -> p ≡ₚ q -> CRC p = CRC q.
Proof.
  intros Hlen Hp Hpq.
  assert (Hlen' : length q = 8%nat) by (rewrite <- Hlen; symmetry; now apply Permutation_length).
  assert (Hq : Forall is_u8 q) by (rewrite <- Hpq; exact Hp).
  rewrite (CRC_of_acc p Hlen Hp), (CRC_of_acc q Hlen' Hq).
  rewrite (CRC_acc_closed p Hlen Hp), (CRC_acc_closed q Hlen' Hq).
  now rewrite (byte_sum_Permutation p q Hpq).
Qed.

Lemma CRC_order_blind_witness :
  length [0x10; 0x00; 0x06; 0xD2; 0x04; 0x00; 0x00; 0x00] = 8%nat /\
  Forall is_u8 [0x10; 0x00; 0x06; 0xD2; 0x04; 0x00; 0x00; 0x00] /\
  [0x10; 0x00; 0x06; 0xD2; 0x04; 0x00; 0x00; 0x00] ≡ₚ
    [0x00; 0x10; 0x06; 0xD2; 0x04; 0x00; 0x00; 0x00] /\
  CRC [0x10; 0x00; 0x06; 0xD2; 0x04; 0x00; 0x00; 0x00] =
    CRC [0x00; 0x10; 0x06; 0xD2; 0x04; 0x00; 0x00; 0x00].
Proof.
  assert (H1 : length [0x10; 0x00; 0x06; 0xD2; 0x04; 0x00; 0x00; 0x00] = 8%nat)
    by reflexivity.
  assert (H2 : Forall is_u8 [0x10; 0x00; 0x06; 0xD2; 0x04; 0x00; 0x00; 0x00]).
  { repeat (apply Forall_cons_2; [unfold is_u8; lia |]). apply Forall_nil_2. }
  assert (H3 : [0x10; 0x00; 0x06; 0xD2; 0x04; 0x00; 0x00; 0x00] ≡ₚ
               [0x00; 0x10; 0x06; 0xD2; 0x04; 0x00; 0x00; 0x00])
    by apply perm_swap.
  exact (conj H1 (conj H2 (conj H3 (CRC_order_blind _ _ H1 H2 H3)))).
Defined.

(** ** A packet carries a checksum that verifies *)

Lemma raw_packet_bytes type id val :
  is_u8 type -> is_u16 id -> is_i32 val ->
  raw_packet type id val =
  (type :: le_bytes 2 id ++ le_bytes 4 (val mod 2 ^ 32)) ++
  [CRC ((type :: le_bytes 2 id ++ le_bytes 4 (val mod 2 ^ 32)) ++ [0])].
Proof.
  intros Ht Hi Hv.
  pose proof (CRC_packed_placeholder type id val Ht Hi Hv) as Hcrc.
  unfold raw_packet. rewrite Hcrc. clear Hcrc.
  rewrite packed_layout by assumption.
  set (body := type :: le_bytes 2 id ++ le_bytes 4 (val mod 2 ^ 32)).
  change (type :: le_bytes 2 id ++ le_bytes 4 (val mod 2 ^ 32) ++ [sign_byte val])
    with (body ++ [sign_byte val]).
  assert (Hlen : length body = 7%nat).
  { unfold body. cbn [length]. now rewrite length_app, !length_le_bytes. }
  assert (Hins : forall x y, <[7%nat := x]> (body ++ [y]) = body ++ [x]).
  { intros x y. rewrite <- Hlen, <- (Nat.add_0_r (length body)).
    now rewrite (insert_app_r body [y] 0 x). }
  rewrite !Hins. reflexivity.
Qed.

Lemma body_u8 type id w :
  is_u8 type -> Forall is_u8 (type :: le_bytes 2 id ++ le_bytes 4 w).
Proof.
  intros Ht. apply Forall_cons_2; [exact Ht |].
  apply Forall_app; split; apply le_bytes_u8.
Qed.

Lemma body_length type id w :
  length (type :: le_bytes 2 id ++ le_bytes 4 w) = 7%nat.
Proof. cbn [length]. now rewrite length_app, !length_le_bytes. Qed.

(** Seven bytes followed by their checksum sum up to [0xFF]. *)
Lemma CRC_acc_with_checksum (body : list Z) :
  length body = 7%nat -> Forall is_u8 body ->
  CRC_acc (body ++ [CRC (body ++ [0])]) = 0xFF.
Proof.
  intros Hlen Hbody.
  assert (Hl8 : forall x, length (body ++ [x]) = 8%nat)
    by (intros x; rewrite length_app, Hlen; reflexivity).
  assert (Hu8 : forall x, is_u8 x -> Forall is_u8 (body ++ [x]))
    by (intros x Hx; apply Forall_app; split;
        [exact Hbody | apply Forall_cons_2; [exact Hx | apply Forall_nil_2]]).
  assert (H0 : is_u8 0) by (unfold is_u8; lia).
  rewrite (CRC_of_acc (body ++ [0]) (Hl8 0) (Hu8 0 H0)).
  rewrite !CRC_acc_fold, !fold_left_snoc by apply Hl8.
  destruct (CRC_fold_spec body 0 ltac:(lia) Hbody) as (Hr & _ & _).
  revert Hr. generalize (fold_left CRC_body body 0). intros a Hr.
  rewrite (CRC_body_carry a 0) by lia.
  destruct (Z.ltb_spec (a + 0) 256); [| lia].
  rewrite CRC_body_carry by lia.
  destruct (Z.ltb_spec (a + (255 - (a + 0))) 256); lia.
Qed.

(** X3.  The packet [sendData] builds verifies: adding up all eight
    bytes, checksum included, the way [CRC] does gives [0xFF], so that
    [CRC] of the finished packet is 0. *)
Theorem raw_packet_verifies type id val :
  is_u8 type -> is_u16 id -> is_i32 val ->
  CRC_acc (raw_packet type id val) = 0xFF /\ CRC (raw_packet type id val) = 0.
Proof.
  intros Ht Hi Hv.
  assert (Hacc : CRC_acc (raw_packet type id val) = 0xFF).
  { rewrite raw_packet_bytes by assumption.
    apply CRC_acc_with_checksum; [apply body_length | now apply body_u8]. }
  split; [exact Hacc |].
  rewrite (CRC_of_acc _ (length_raw_packet type id val) (raw_packet_u8 type id val)).
  rewrite Hacc. reflexivity.
Qed.

Lemma raw_packet_verifies_witness :
  is_u8 0x10 /\ is_u16 0x0600 /\ is_i32 (-1234) /\
  CRC_acc (raw_packet 0x10 0x0600 (-1234)) = 0xFF /\
  CRC (raw_packet 0x10 0x0600 (-1234)) = 0.
Proof.
  assert (H1 : is_u8 0x10) by (unfold is_u8; lia).
  assert (H2 : is_u16 0x0600) by (unfold is_u16; lia).
  assert (H3 : is_i32 (-1234)) by (unfold is_i32; lia).
  exact (conj H1 (conj H2 (conj H3
           (raw_packet_verifies 0x10 0x0600 (-1234) H1 H2 H3)))).
Defined.

(** ** The wire format determines the fields *)

Lemma le_bytes_inj n : forall x y,
  le_bytes n x = le_bytes n y ->
  x mod 2 ^ (8 * Z.of_nat n) = y mod 2 ^ (8 * Z.of_nat n).
Proof.
  induction n as [| n IH]; intros x y H.
  - change (2 ^ (8 * Z.of_nat 0)) with 1. now rewrite !Z.mod_1_r.
  - cbn [le_bytes] in H. injection H as H0 Hrest.
    apply IH in Hrest.
    replace (2 ^ (8 * Z.of_nat (S n))) with (2 ^ 8 * 2 ^ (8 * Z.of_nat n))
      by (rewrite <- Z.pow_add_r by lia; f_equal; lia).
    rewrite !Z.rem_mul_r by lia. now rewrite H0, Hrest.
Qed.

Lemma raw_packet_inj type id val type' id' val' :
  is_u8 type -> is_u16 id -> is_i32 val ->
  is_u8 type' -> is_u16 id' -> is_i32 val' ->
  raw_packet type id val = raw_packet type' id' val' ->
  type = type' /\ id = id' /\ val = val'.
Proof.
  intros Ht Hi Hv Ht' Hi' Hv' H.
  rewrite !raw_packet_bytes in H by assumption.
  apply app_inj_tail in H. destruct H as [H _].
  assert (Hc : forall (a b : Z) (l k : list Z),
            a :: l = b :: k -> a = b /\ l = k)
    by (intros a b l k E; now injection E).
  apply Hc in H. destruct H as [Htype H].
  apply app_inj_1 in H; [| now rewrite !length_le_bytes].
  destruct H as [Hid Hval].
  apply le_bytes_inj in Hid, Hval.
  change (2 ^ (8 * Z.of_nat 2)) with (2 ^ 16) in Hid.
  change (2 ^ (8 * Z.of_nat 4)) with (2 ^ 32) in Hval.
  rewrite !Zmod_mod in Hval.
  unfold is_u16, is_i32 in *.
  rewrite !Z.mod_small in Hid by lia.
  split; [exact Htype |]. split; [exact Hid |].
  destruct (Z.ltb_spec val 0), (Z.ltb_spec val' 0).
  - rewrite <- (Z.mod_unique val (2 ^ 32) (-1) (val + 2 ^ 32)) in Hval by lia.
    rewrite <- (Z.mod_unique val' (2 ^ 32) (-1) (val' + 2 ^ 32)) in Hval by lia.
    lia.
  - rewrite <- (Z.mod_unique val (2 ^ 32) (-1) (val + 2 ^ 32)) in Hval by lia.
    rewrite (Z.mod_small val') in Hval by lia. lia.
  - rewrite <- (Z.mod_unique val' (2 ^ 32) (-1) (val' + 2 ^ 32)) in Hval by lia.
    rewrite (Z.mod_small val) in Hval by lia. lia.
  - rewrite !Z.mod_small in Hval by lia. exact Hval.
Qed.

(** X4.  The bytes one [sendData] call writes determine its arguments:
    two calls that write the same bytes were given the same type, logical
    id and value, whatever state each was made in. *)
Theorem sendData_output_injective type id val type' id' val' st st' :
  is_u8 type -> is_u16 id -> is_i32 val ->
  is_u8 type' -> is_u16 id' -> is_i32 val' ->
  output_since st (sendData type id val st) =
    output_since st' (sendData type' id' val' st') ->
  type = type' /\ id = id' /\ val = val'.
Proof.
  intros Ht Hi Hv Ht' Hi' Hv' H.
  rewrite !sendData_output in H.
  apply (f_equal destuff) in H. rewrite !destuff_flat_map_stuff in H.
  now apply raw_packet_inj.
Qed.

Lemma sendData_output_injective_witness :
  is_u8 0x10 /\ is_u16 0x0600 /\ is_i32 (-2) /\
  (output_since (power_on 0 0 0) (sendData 0x10 0x0600 (-2) (power_on 0 0 0)) =
   output_since (power_on 1 2 3) (sendData 0x10 0x0600 (-2) (power_on 1 2 3)) ->
   0x10 = 0x10 /\ 0x0600 = 0x0600 /\ -2 = -2).
Proof.
  assert (H1 : is_u8 0x10) by (unfold is_u8; lia).
  assert (H2 : is_u16 0x0600) by (unfold is_u16; lia).
  assert (H3 : is_i32 (-2)) by (unfold is_i32; lia).
  exact (conj H1 (conj H2 (conj H3
    (sendData_output_injective 0x10 0x0600 (-2) 0x10 0x0600 (-2)
       (power_on 0 0 0) (power_on 1 2 3) H1 H2 H3 H1 H2 H3)))).
Defined.

(** ** What a poll puts on the wire for a slot *)

Lemma wrap_i32_range z : is_i32 (wrap_i32 z).
Proof.
  unfold is_i32, wrap_i32.
  pose proof (Z.mod_pos_bound (z + 2 ^ 31) (2 ^ 32) ltac:(lia)). lia.
Qed.

Lemma wrap_i32_mod z : 0 <= z < 2 ^ 32 -> wrap_i32 z mod 2 ^ 32 = z.
Proof.
  intros Hz. unfold wrap_i32.
  destruct (Z.ltb_spec z (2 ^ 31)).
  - rewrite (Z.mod_small (z + 2 ^ 31)) by lia.
    replace (z + 2 ^ 31 - 2 ^ 31) with z by lia. apply Z.mod_small. lia.
  - rewrite <- (Z.mod_unique (z + 2 ^ 31) (2 ^ 32) 1 (z - 2 ^ 31)) by lia.
    symmetry. apply (Z.mod_unique _ _ (-1)); lia.
Qed.

(** X5.  The packet a poll sends for a slot carries the slot's 32-bit
    unsigned value bit for bit, also when it is [2^31] or more and passes
    through [sendData]'s [int32_t] parameter: de-stuffed, the frame is
    [0x10], the id low byte first, the value low byte first, and the
    checksum. *)
Theorem slot_frame_bytes (s : FrskySP_SensorData) :
  is_u16 (id s) -> 0 <= val s < 2 ^ 32 ->
  destuff (slot_frame s) =
  (0x10 :: le_bytes 2 (id s) ++ le_bytes 4 (val s)) ++
  [CRC ((0x10 :: le_bytes 2 (id s) ++ le_bytes 4 (val s)) ++ [0])].
Proof.
  intros Hi Hv. unfold slot_frame. rewrite destuff_flat_map_stuff.
  rewrite raw_packet_bytes;
    [| unfold is_u8; lia | exact Hi | apply wrap_i32_range].
  rewrite (wrap_i32_mod (val s) Hv). reflexivity.
Qed.

Lemma slot_frame_bytes_witness :
  is_u16 0x0610 /\ 0 <= 0xFFFFFFFE < 2 ^ 32 /\
  destuff (slot_frame {| id := 0x0610; val := 0xFFFFFFFE |}) =
  (0x10 :: le_bytes 2 0x0610 ++ le_bytes 4 0xFFFFFFFE) ++
  [CRC ((0x10 :: le_bytes 2 0x0610 ++ le_bytes 4 0xFFFFFFFE) ++ [0])].
Proof.
  assert (H1 : is_u16 0x0610) by (unfold is_u16; lia).
  assert (H2 : 0 <= 0xFFFFFFFE < 2 ^ 32) by lia.
  exact (conj H1 (conj H2
    (slot_frame_bytes {| id := 0x0610; val := 0xFFFFFFFE |} H1 H2))).
Defined.

(** ** The stuffed frame *)

Lemma stuff_no_frame_begin v : 0x7E ∉ stuff v.
Proof.
  unfold stuff.
  destruct (Z.eqb_spec v 0x7E) as [-> | H1].
  - cbn. intros H. apply elem_of_cons in H as [H | H]; [discriminate |].
    apply elem_of_cons in H as [H | H]; [discriminate |].
    now apply elem_of_nil in H.
  - destruct (Z.eqb_spec v 0x7D) as [-> | H2].
    + cbn. intros H. apply elem_of_cons in H as [H | H]; [discriminate |].
      apply elem_of_cons in H as [H | H]; [discriminate |].
      now apply elem_of_nil in H.
    + cbn [orb]. intros H. apply elem_of_cons in H as [H | H]; [congruence |].
      now apply elem_of_nil in H.
Qed.

Lemma flat_map_stuff_no_frame_begin l : 0x7E ∉ flat_map stuff l.
Proof.
  induction l as [| v l IH]; cbn [flat_map].
  - apply not_elem_of_nil.
  - intros H. apply elem_of_app in H as [H | H].
    + exact (stuff_no_frame_begin v H).
    + exact (IH H).
Qed.

(** X6.  Whatever its arguments, [sendData] never writes the frame-begin
    marker [0x7E]. *)
Theorem sendData_never_writes_frame_begin type id val st :
  SPORT_FRAME_BEGIN ∉ output_since st (sendData type id val st).
Proof. rewrite sendData_output. apply flat_map_stuff_no_frame_begin. Qed.

Lemma length_flat_map_stuff_exact l :
  length (flat_map stuff l) =
  (length l + count_occ Z.eq_dec l 0x7E%Z + count_occ Z.eq_dec l 0x7D%Z)%nat.
Proof.
  induction l as [| v l IH]; [reflexivity |].
  cbn [flat_map length count_occ]. rewrite length_app, IH. unfold stuff.
  destruct (Z.eq_dec v 0x7E) as [-> | H1].
  - destruct (Z.eq_dec 0x7E 0x7D) as [E | _]; [discriminate E |].
    cbn [Z.eqb Pos.eqb orb length]. lia.
  - destruct (Z.eq_dec v 0x7D) as [-> | H2].
    + cbn [Z.eqb Pos.eqb orb length]. lia.
    + destruct (Z.eqb_spec v 0x7E); [contradiction |].
      destruct (Z.eqb_spec v 0x7D); [contradiction |].
      cbn [orb length]. lia.
Qed.

Lemma length_flat_map_stuff_le l :
  (length (flat_map stuff l) <= 2 * length l)%nat.
Proof.
  induction l as [| v l IH]; [reflexivity |].
  cbn [flat_map length]. rewrite length_app. unfold stuff at 1.
  destruct (_ || _); cbn [length]; lia.
Qed.

(** X7.  One [sendData] call writes eight bytes plus one more for every
    byte of the raw packet, checksum included, that equals [0x7E] or
    [0x7D]: between 8 and 16 bytes. *)
Theorem sendData_output_length type id val st :
  length (output_since st (sendData type id val st)) =
    (8 + count_occ Z.eq_dec (raw_packet type id val) SPORT_FRAME_BEGIN
       + count_occ Z.eq_dec (raw_packet type id val) SPORT_BYTE_STUFF_MARKER)%nat /\
  (8 <= length (output_since st (sendData type id val st)) <= 16)%nat.
Proof.
  rewrite sendData_output. split.
  - rewrite length_flat_map_stuff_exact, length_raw_packet. reflexivity.
  - pose proof (length_flat_map_stuff (raw_packet type id val)) as Hlo.
    pose proof (length_flat_map_stuff_le (raw_packet type id val)) as Hhi.
    rewrite length_raw_packet in Hlo, Hhi. lia.
Qed.

(** ** What [sendData] leaves alone *)

Lemma tx_off_bits c3 k :
  is_u8 c3 -> 0 <= k ->
  Z.testbit (tx_off c3) k = if k =? 5 then false else Z.testbit c3 k.
Proof.
  intros Hc Hk. unfold tx_off, tx_on, wrap_u8, is_u8 in *.
  change UART_C3_TXDIR with (2 ^ 5).
  destruct (Z.lt_ge_cases k 8) as [Hlt | Hge].
  - rewrite Z.mod_pow2_bits_low by lia.
    rewrite Z.land_spec, Z.lor_spec, Z.lnot_spec, Z.pow2_bits_eqb by lia.
    destruct (Z.eqb_spec k 5) as [-> | Hne].
    + cbn. now rewrite orb_true_r.
    + destruct (Z.eqb_spec 5 k); [lia |].
      cbn [negb]. now rewrite orb_false_r, andb_true_r.
  - rewrite Z.mod_pow2_bits_high by lia.
    destruct (Z.eqb_spec k 5); [reflexivity |].
    rewrite <- (Z.mod_small c3 (2 ^ 8)) by lia.
    now rewrite Z.mod_pow2_bits_high by lia.
Qed.

(** X8.  [sendData] leaves the sensor table, the cursor, the sensor id,
    the count and the registers [UART0_C1] and [UART0_S2] as they were;
    in [UART0_C3] it ends with the transmit-direction bit cleared and
    every other bit as it found it. *)
Theorem sendData_frame type id val st :
  is_u8 (sportSerial_UART_C3 st) ->
  _sensorTable (sendData type id val st) = _sensorTable st /\
  _sensorTableIdx (sendData type id val st) = _sensorTableIdx st /\
  _sensorId (sendData type id val st) = _sensorId st /\
  _sensorValues (sendData type id val st) = _sensorValues st /\
  sportSerial_UART_C1 (sendData type id val st) = sportSerial_UART_C1 st /\
  sportSerial_UART_S2 (sendData type id val st) = sportSerial_UART_S2 st /\
  forall k, 0 <= k ->
    Z.testbit (sportSerial_UART_C3 (sendData type id val st)) k =
    if k =? 5 then false else Z.testbit (sportSerial_UART_C3 st) k.
Proof.
  intros Hc. rewrite sendData_state.
  cbn [_sensorTable _sensorTableIdx _sensorId _sensorValues
       sportSerial_UART_C1 sportSerial_UART_C3 sportSerial_UART_S2].
  repeat (split; [reflexivity |]).
  intros k Hk. now apply tx_off_bits.
Qed.

Lemma sendData_frame_witness :
  is_u8 (sportSerial_UART_C3 (power_on 0 0x30 0)) /\
  forall k, 0 <= k ->
    Z.testbit
      (sportSerial_UART_C3 (sendData 0x10 0x0600 1234 (power_on 0 0x30 0))) k =
    if k =? 5 then false
    else Z.testbit (sportSerial_UART_C3 (power_on 0 0x30 0)) k.
Proof.
  assert (H : is_u8 (sportSerial_UART_C3 (power_on 0 0x30 0)))
    by (unfold is_u8; cbn; lia).
  split; [exact H |].
  apply (sendData_frame 0x10 0x0600 1234 (power_on 0 0x30 0) H).
Defined.

(** ** The scanner of [poll] *)

Lemma poll_pair c rx st :
  poll (SPORT_FRAME_BEGIN :: c :: rx) st =
  if (c =? _sensorId st) && negb (_sensorValues st =? 0) then
    match answer st with
    | Returned st' => poll rx st'
    | o => o
    end
  else poll rx st.
Proof. cbn [poll]. now rewrite Z.eqb_refl. Qed.

(** What [answer] returns is the state after one [sendData] with the
    cursor moved. *)
Lemma answer_shape st st' :
  answer st = Returned st' ->
  exists slot r,
    _sensorTable st !! Z.to_nat (_sensorTableIdx st) = Some slot /\
    st' = set_sensorTableIdx r
            (sendData 0x10 (id slot) (wrap_i32 (val slot)) st).
Proof.
  unfold answer.
  destruct (_sensorTable st !! Z.to_nat (_sensorTableIdx st)) as [slot |];
    [| discriminate].
  destruct (rem _ _) as [r |]; [| discriminate].
  intros H. apply Returned_inj in H. subst st'.
  exists slot, (wrap_u8 r). split; reflexivity.
Qed.

(** A property that every answer keeps is kept by [poll], on any input
    and also when the call blocks. *)
Lemma poll_preserves (P : state -> Prop) :
  (forall st st', P st -> answer st = Returned st' -> P st') ->
  forall rx st st', P st -> final (poll rx st) = Some st' -> P st'.
Proof.
  intros Hanswer rx.
  induction rx as [| a | a b rx IH1 IH2] using list_pair_ind;
    intros st st' Hst Hfin.
  - cbn in Hfin. now injection Hfin as <-.
  - destruct (Z.eq_dec a SPORT_FRAME_BEGIN) as [-> | Ha].
    + rewrite poll_blocked in Hfin. now injection Hfin as <-.
    + rewrite poll_skip in Hfin by exact Ha. now injection Hfin as <-.
  - destruct (Z.eq_dec a SPORT_FRAME_BEGIN) as [-> | Ha];
      [| rewrite poll_skip in Hfin by exact Ha; eauto].
    rewrite poll_pair in Hfin.
    destruct (_ && _); [| eauto].
    destruct (answer_cases st) as [E | [st1 E]]; rewrite E in Hfin.
    + discriminate.
    + eapply IH1; [| exact Hfin]. eapply Hanswer; eauto.
Qed.

(** X9.  Bytes outside a frame are dropped: on an input without the
    frame-begin marker [poll] returns with the state as it was. *)
Theorem poll_drops_noise rx st :
  Forall (fun b => b <> SPORT_FRAME_BEGIN) rx -> poll rx st = Returned st.
Proof.
  induction 1 as [| b rx Hb _ IH]; [reflexivity |].
  now rewrite poll_skip.
Qed.

Lemma poll_drops_noise_witness :
  Forall (fun b => b <> SPORT_FRAME_BEGIN) [0x06; 0x7D; 0x5E] /\
  poll [0x06; 0x7D; 0x5E] (begin 0x80 0x20 0x06 2 (power_on 0 0 0)) =
    Returned (begin 0x80 0x20 0x06 2 (power_on 0 0 0)).
Proof.
  assert (H : Forall (fun b => b <> SPORT_FRAME_BEGIN) [0x06; 0x7D; 0x5E]).
  { repeat (apply Forall_cons_2; [discriminate |]). apply Forall_nil_2. }
  exact (conj H (poll_drops_noise _ _ H)).
Defined.

(** X10.  The byte after a frame-begin marker is always taken as the id,
    also when it is a frame-begin marker itself: of [7E 7E id] the second
    marker is compared with the sensor id and the id byte is then dropped,
    so that the poll is not answered (for a sensor id other than
    [0x7E]). *)
Theorem poll_doubled_frame_begin rx st :
  _sensorId st <> SPORT_FRAME_BEGIN ->
  poll (SPORT_FRAME_BEGIN :: SPORT_FRAME_BEGIN :: _sensorId st :: rx) st =
  poll rx st.
Proof.
  intros Hid.
  rewrite poll_mismatch by congruence.
  now rewrite poll_skip.
Qed.

Lemma poll_doubled_frame_begin_witness :
  _sensorId (begin 0x80 0x20 0x06 2 (power_on 0 0 0)) <> SPORT_FRAME_BEGIN /\
  poll [SPORT_FRAME_BEGIN; SPORT_FRAME_BEGIN;
        _sensorId (begin 0x80 0x20 0x06 2 (power_on 0 0 0))]
       (begin 0x80 0x20 0x06 2 (power_on 0 0 0)) =
  poll [] (begin 0x80 0x20 0x06 2 (power_on 0 0 0)).
Proof.
  assert (H : _sensorId (begin 0x80 0x20 0x06 2 (power_on 0 0 0))
              <> SPORT_FRAME_BEGIN) by discriminate.
  exact (conj H (poll_doubled_frame_begin [] _ H)).
Defined.

(** X11.  [poll] never changes the sensor table, the sensor id, the count
    or the registers [UART0_C1] and [UART0_S2], and it only appends to the
    trace; this holds for the state it returns and for the state in which
    it blocks. *)
Theorem poll_frame rx st st' :
  final (poll rx st) = Some st' ->
  _sensorTable st' = _sensorTable st /\
  _sensorId st' = _sensorId st /\
  _sensorValues st' = _sensorValues st /\
  sportSerial_UART_C1 st' = sportSerial_UART_C1 st /\
  sportSerial_UART_S2 st' = sportSerial_UART_S2 st /\
  exists es, trace st' = trace st ++ es.
Proof.
  apply (poll_preserves (fun s =>
    _sensorTable s = _sensorTable st /\
    _sensorId s = _sensorId st /\
    _sensorValues s = _sensorValues st /\
    sportSerial_UART_C1 s = sportSerial_UART_C1 st /\
    sportSerial_UART_S2 s = sportSerial_UART_S2 st /\
    exists es, trace s = trace st ++ es)).
  - intros s s' (Ht & Hi & Hv & H1 & H2 & [es Hes]) Ha.
    destruct (answer_shape s s' Ha) as (slot & r & _ & ->).
    rewrite sendData_state.
    cbn [set_sensorTableIdx _sensorTable _sensorId _sensorValues
         sportSerial_UART_C1 sportSerial_UART_S2 trace].
    repeat (split; [assumption |]).
    eexists. rewrite Hes, <- app_assoc. reflexivity.
  - repeat (split; [reflexivity |]). exists []. now rewrite app_nil_r.
Qed.

Lemma poll_frame_witness :
  final (poll [0x7E; 0x06; 0x7E]
           (begin 0x80 0x20 0x06 2 (power_on 0 0 0))) =
    Some (set_sensorTableIdx 1
            (sendData 0x10 0 0 (begin 0x80 0x20 0x06 2 (power_on 0 0 0)))) /\
  _sensorTable (set_sensorTableIdx 1
            (sendData 0x10 0 0 (begin 0x80 0x20 0x06 2 (power_on 0 0 0)))) =
  _sensorTable (begin 0x80 0x20 0x06 2 (power_on 0 0 0)).
Proof.
  assert (H : final (poll [0x7E; 0x06; 0x7E]
                       (begin 0x80 0x20 0x06 2 (power_on 0 0 0))) =
              Some (set_sensorTableIdx 1
                      (sendData 0x10 0 0
                         (begin 0x80 0x20 0x06 2 (power_on 0 0 0)))))
    by (vm_compute; reflexivity).
  exact (conj H (proj1 (poll_frame _ _ _ H))).
Defined.

Lemma poll_app_returned rx1 : forall st st1 rx2,
  poll rx1 st = Returned st1 -> poll (rx1 ++ rx2) st = poll rx2 st1.
Proof.
  induction rx1 as [| a | a b rx1 IH1 IH2] using list_pair_ind;
    intros st st1 rx2 H.
  - apply Returned_inj in H. now subst st1.
  - destruct (Z.eq_dec a SPORT_FRAME_BEGIN) as [-> | Ha].
    + rewrite poll_blocked in H. discriminate H.
    + rewrite poll_skip in H by exact Ha. apply Returned_inj in H. subst st1.
      cbn [app]. now rewrite poll_skip.
  - change ((a :: b :: rx1) ++ rx2) with (a :: (b :: rx1) ++ rx2).
    destruct (Z.eq_dec a SPORT_FRAME_BEGIN) as [-> | Ha].
    + change (SPORT_FRAME_BEGIN :: (b :: rx1) ++ rx2)
        with (SPORT_FRAME_BEGIN :: b :: (rx1 ++ rx2)).
      rewrite poll_pair in H |- *.
      destruct (_ && _); [| now apply IH1].
      destruct (answer_cases st) as [E | [s E]]; rewrite E in H |- *.
      * discriminate H.
      * now apply IH1.
    + rewrite poll_skip in H |- * by exact Ha. now apply IH2.
Qed.

Lemma poll_app_blocked rx1 : forall st st1 c rx2,
  poll rx1 st = Blocked st1 ->
  poll (rx1 ++ c :: rx2) st = poll (SPORT_FRAME_BEGIN :: c :: rx2) st1.
Proof.
  induction rx1 as [| a | a b rx1 IH1 IH2] using list_pair_ind;
    intros st st1 c rx2 H.
  - discriminate H.
  - destruct (Z.eq_dec a SPORT_FRAME_BEGIN) as [-> | Ha].
    + rewrite poll_blocked in H. injection H as ->. reflexivity.
    + rewrite poll_skip in H by exact Ha. discriminate H.
  - change ((a :: b :: rx1) ++ c :: rx2) with (a :: (b :: rx1) ++ c :: rx2).
    destruct (Z.eq_dec a SPORT_FRAME_BEGIN) as [-> | Ha].
    + change (SPORT_FRAME_BEGIN :: (b :: rx1) ++ c :: rx2)
        with (SPORT_FRAME_BEGIN :: b :: (rx1 ++ c :: rx2)).
      rewrite (poll_pair b rx1) in H. rewrite (poll_pair b (rx1 ++ c :: rx2)).
      destruct (_ && _); [| now apply IH1].
      destruct (answer_cases st) as [E | [s E]]; rewrite E in H |- *.
      * discriminate H.
      * now apply IH1.
    + rewrite poll_skip in H |- * by exact Ha. now apply IH2.
Qed.

(** X12.  How the input is cut into calls does not matter: when [poll]
    returns on [rx1], a further call on [rx2] does what one call on
    [rx1 ++ rx2] does; and when it waits for the id byte at the end of
    [rx1], the bytes that arrive next are read as the id byte and what
    follows it. *)
Theorem poll_input_split :
  (forall rx1 rx2 st st1,
     poll rx1 st = Returned st1 ->
     poll (rx1 ++ rx2) st = poll rx2 st1 /\
     run [OpPoll rx1; OpPoll rx2] st = poll (rx1 ++ rx2) st) /\
  (forall rx1 c rx2 st st1,
     poll rx1 st = Blocked st1 ->
     poll (rx1 ++ c :: rx2) st = poll (SPORT_FRAME_BEGIN :: c :: rx2) st1).
Proof.
  split.
  - intros rx1 rx2 st st1 H.
    pose proof (poll_app_returned rx1 st st1 rx2 H) as E.
    split; [exact E |].
    cbn [run exec]. rewrite H, E. now destruct (poll rx2 st1).
  - intros rx1 c rx2 st st1 H. now apply poll_app_blocked.
Qed.

Lemma poll_input_split_witness :
  poll [0x55; 0x7E; 0x07] (begin 0x80 0x20 0x06 2 (power_on 0 0 0)) =
    Returned (begin 0x80 0x20 0x06 2 (power_on 0 0 0)) /\
  poll ([0x55; 0x7E; 0x07] ++ [0x7E; 0x06])
       (begin 0x80 0x20 0x06 2 (power_on 0 0 0)) =
  poll [0x7E; 0x06] (begin 0x80 0x20 0x06 2 (power_on 0 0 0)).
Proof.
  assert (H : poll [0x55; 0x7E; 0x07]
                (begin 0x80 0x20 0x06 2 (power_on 0 0 0)) =
              Returned (begin 0x80 0x20 0x06 2 (power_on 0 0 0)))
    by (vm_compute; reflexivity).
  exact (conj H (proj1 (proj1 poll_input_split _ [0x7E; 0x06] _ _ H))).
Defined.

(** X13.  [poll] can only be left waiting by a frame-begin marker at the
    very end of its input: when it blocks, the last byte it read is
    [0x7E]. *)
Theorem poll_blocks_on_trailing_marker rx st st' :
  poll rx st = Blocked st' -> last rx = Some SPORT_FRAME_BEGIN.
Proof.
  revert st.
  induction rx as [| a | a b rx IH1 IH2] using list_pair_ind; intros st H.
  - discriminate H.
  - destruct (Z.eq_dec a SPORT_FRAME_BEGIN) as [-> | Ha]; [reflexivity |].
    rewrite poll_skip in H by exact Ha. discriminate H.
  - rewrite last_cons_cons.
    destruct (Z.eq_dec a SPORT_FRAME_BEGIN) as [-> | Ha].
    + rewrite poll_pair in H.
      assert (Hrx : exists s, poll rx s = Blocked st').
      { destruct (_ && _); [| eauto].
        destruct (answer_cases st) as [E | [s E]]; rewrite E in H;
          [discriminate H | eauto]. }
      destruct Hrx as [s Hs]. specialize (IH1 s Hs).
      destruct rx as [| x rx]; [discriminate IH1 |].
      now rewrite last_cons_cons.
    + rewrite poll_skip in H by exact Ha. eauto.
Qed.

Lemma poll_blocks_on_trailing_marker_witness :
  poll [0x55; 0x7E] (power_on 0 0 0) = Blocked (power_on 0 0 0) /\
  last [0x55; 0x7E] = Some SPORT_FRAME_BEGIN.
Proof.
  assert (H : poll [0x55; 0x7E] (power_on 0 0 0) = Blocked (power_on 0 0 0))
    by reflexivity.
  exact (conj H (poll_blocks_on_trailing_marker _ _ _ H)).
Defined.

Lemma poll_configured_defined sid n :
  0 < n <= MAX_SENSORS ->
  forall rx st,
    configured sid n st ->
    exists st',
      (poll rx st = Returned st' \/
       (poll rx st = Blocked st' /\ last rx = Some SPORT_FRAME_BEGIN)) /\
      configured sid n st'.
Proof.
  intros Hn rx.
  assert (Hn8 : 0 < n < 2 ^ 8) by (unfold MAX_SENSORS in Hn; lia).
  assert (Hlast : forall (a b : Z) l,
            last l = Some SPORT_FRAME_BEGIN ->
            last (a :: b :: l) = Some SPORT_FRAME_BEGIN).
  { intros a b [| x l] H; [discriminate H |]. now rewrite !last_cons_cons. }
  induction rx as [| a | a b rx IH1 IH2] using list_pair_ind; intros st Hst.
  - exists st. split; [now left | exact Hst].
  - exists st. split; [| exact Hst].
    destruct (Z.eq_dec a SPORT_FRAME_BEGIN) as [-> | Ha].
    + right. split; [apply poll_blocked | reflexivity].
    + left. now rewrite poll_skip.
  - destruct (Z.eq_dec a SPORT_FRAME_BEGIN) as [-> | Ha].
    + assert (Hnext : exists s, poll (SPORT_FRAME_BEGIN :: b :: rx) st = poll rx s
                                /\ configured sid n s).
      { destruct (Z.eq_dec b sid) as [-> | Hb].
        - eexists. split; [apply (poll_answered sid n Hn rx st Hst) |].
          pose proof (cursor_slot sid n Hn st Hst) as Hslot.
          apply (answer_configured sid n Hn8 st); [exact Hst |].
          destruct Hst as (_ & Hv & Hc & _). unfold cursor_ok in Hc.
          rewrite (answer_returns st _ Hslot) by lia. now rewrite Hv.
        - exists st. split; [| exact Hst]. apply poll_mismatch.
          destruct Hst as (-> & _). exact Hb. }
      destruct Hnext as (s & -> & Hs).
      destruct (IH1 s Hs) as (st' & [Hp | [Hp Hl]] & Hst').
      * exists st'. split; [now left | exact Hst'].
      * exists st'. split; [right; split; [exact Hp | now apply Hlast] | exact Hst'].
    + rewrite poll_skip by exact Ha.
      destruct (IH2 st Hst) as (st' & [Hp | [Hp Hl]] & Hst').
      * exists st'. split; [now left | exact Hst'].
      * exists st'. split; [| exact Hst']. right. split; [exact Hp |].
        now rewrite last_cons_cons.
Qed.

(** X14.  With a count between 1 and [MAX_SENSORS] and the cursor below
    it, [poll] stays inside the table on every input: the outcome is never
    the undefined one, the cursor is below the count afterwards, and
    unless the input ends with a frame-begin marker the call returns. *)
Theorem poll_stays_in_table sid n rx st :
  0 < n <= MAX_SENSORS -> configured sid n st ->
  (exists st',
     (poll rx st = Returned st' \/ poll rx st = Blocked st') /\
     configured sid n st') /\
  (last rx <> Some SPORT_FRAME_BEGIN -> exists st', poll rx st = Returned st').
Proof.
  intros Hn Hst.
  destruct (poll_configured_defined sid n Hn rx st Hst)
    as (st' & [Hp | [Hp Hl]] & Hst').
  - split; [exists st'; auto |]. intros _. eauto.
  - split; [exists st'; auto |]. intros Hlast. contradiction.
Qed.

Lemma poll_stays_in_table_witness :
  0 < 2 <= MAX_SENSORS /\
  configured 0x06 2 (begin 0x80 0x20 0x06 2 (power_on 0 0 0)) /\
  exists st',
    (poll [0x7E; 0x06; 0x7E; 0x06; 0x7E; 0x06]
       (begin 0x80 0x20 0x06 2 (power_on 0 0 0)) = Returned st' \/
     poll [0x7E; 0x06; 0x7E; 0x06; 0x7E; 0x06]
       (begin 0x80 0x20 0x06 2 (power_on 0 0 0)) = Blocked st') /\
    configured 0x06 2 st'.
Proof.
  assert (H1 : 0 < 2 <= MAX_SENSORS) by (unfold MAX_SENSORS; lia).
  assert (H2 : configured 0x06 2 (begin 0x80 0x20 0x06 2 (power_on 0 0 0)))
    by (apply begin_configured; lia).
  exact (conj H1 (conj H2
    (proj1 (poll_stays_in_table 0x06 2 [0x7E; 0x06; 0x7E; 0x06; 0x7E; 0x06]
              _ H1 H2)))).
Defined.

(** X15.  [begin] does not touch the cursor, so that a second [begin] can
    leave it at or above the new count; the first poll that is answered
    after it sets the cursor to its successor modulo the count, which is
    below the count again. *)
Theorem begin_keeps_cursor_poll_restores L R sid n st st' :
  0 < n < 2 ^ 8 ->
  poll [SPORT_FRAME_BEGIN; sid] (begin L R sid n st) = Returned st' ->
  _sensorTableIdx (begin L R sid n st) = _sensorTableIdx st /\
  _sensorTable (begin L R sid n st) = _sensorTable st /\
  _sensorTableIdx st' = (_sensorTableIdx st + 1) mod n /\
  cursor_ok st'.
Proof.
  intros Hn H.
  split; [reflexivity |]. split; [reflexivity |].
  assert (Hid : _sensorId (begin L R sid n st) = sid) by reflexivity.
  assert (Hv : _sensorValues (begin L R sid n st) = n) by reflexivity.
  assert (Hc : _sensorTableIdx (begin L R sid n st) = _sensorTableIdx st)
    by reflexivity.
  revert H Hid Hv Hc. generalize (begin L R sid n st). intros s H Hid Hv Hc.
  rewrite <- Hid, poll_match in H by lia.
  destruct (answer_cases s) as [E | [s1 E]]; rewrite E in H;
    [discriminate H |].
  cbn [poll] in H. apply Returned_inj in H. subst s1.
  destruct (answer_inv s st' E) as (_ & _ & Hv' & Hi' & _).
  pose proof (Z.mod_pos_bound (_sensorTableIdx st + 1) n ltac:(lia)) as Hm.
  rewrite Hv, Hc, wrap_u8_small in Hi' by lia.
  split; [exact Hi' |].
  unfold cursor_ok. rewrite Hi', Hv', Hv. exact Hm.
Qed.

Lemma begin_keeps_cursor_poll_restores_witness :
  0 < 2 < 2 ^ 8 /\
  poll [SPORT_FRAME_BEGIN; 0x06]
       (begin 0x80 0x20 0x06 2 (set_sensorTableIdx 4 (power_on 0 0 0))) =
    Returned
      (set_sensorTableIdx 1
         (sendData 0x10 0 0
            (begin 0x80 0x20 0x06 2
               (set_sensorTableIdx 4 (power_on 0 0 0))))) /\
  cursor_ok
    (set_sensorTableIdx 1
       (sendData 0x10 0 0
          (begin 0x80 0x20 0x06 2 (set_sensorTableIdx 4 (power_on 0 0 0))))).
Proof.
  assert (H1 : 0 < 2 < 2 ^ 8) by lia.
  assert (H2 : poll [SPORT_FRAME_BEGIN; 0x06]
                 (begin 0x80 0x20 0x06 2
                    (set_sensorTableIdx 4 (power_on 0 0 0))) =
               Returned
                 (set_sensorTableIdx 1
                    (sendData 0x10 0 0
                       (begin 0x80 0x20 0x06 2
                          (set_sensorTableIdx 4 (power_on 0 0 0))))))
    by (vm_compute; reflexivity).
  exact (conj H1 (conj H2
    (proj2 (proj2 (proj2
       (begin_keeps_cursor_poll_restores 0x80 0x20 0x06 2 _ _ H1 H2)))))).
Defined.

(** ** Updating the table *)

(** The two field assignments of [setSensorData] amount to storing one
    slot. *)
Lemma setSensorData_store idx i v st :
  0 <= idx < MAX_SENSORS ->
  setSensorData idx i v st =
  Returned (set_sensorTable
              (<[Z.to_nat idx := {| id := i; val := v |}]> (_sensorTable st)) st).
Proof.
  intros Hidx. unfold setSensorData.
  destruct (Z.leb_spec 0 idx); [| lia].
  destruct (Z.ltb_spec idx MAX_SENSORS); [| lia].
  cbn [andb]. do 2 f_equal.
  rewrite list_insert_alter, list_alter_alter_eq.
  apply list_alter_ext; [reflexivity | reflexivity].
Qed.

(** X16.  Two [setSensorData] calls on the same slot leave what the second
    one alone leaves; calls on different slots can be made in either
    order. *)
Theorem setSensorData_compose idx idx' i1 v1 i2 v2 st :
  0 <= idx < MAX_SENSORS -> 0 <= idx' < MAX_SENSORS ->
  run [OpSetSensorData idx i1 v1; OpSetSensorData idx i2 v2] st =
    run [OpSetSensorData idx i2 v2] st /\
  (idx <> idx' ->
   run [OpSetSensorData idx i1 v1; OpSetSensorData idx' i2 v2] st =
     run [OpSetSensorData idx' i2 v2; OpSetSensorData idx i1 v1] st).
Proof.
  intros Hidx Hidx'. cbn [run exec].
  rewrite !(setSensorData_store idx) by exact Hidx.
  rewrite !(setSensorData_store idx') by exact Hidx'.
  rewrite !(setSensorData_store idx) by exact Hidx.
  cbn [set_sensorTable _sensorTable _sensorTableIdx _sensorId _sensorValues
       sportSerial_UART_C1 sportSerial_UART_C3 sportSerial_UART_S2 trace].
  split.
  - now rewrite list_insert_insert_eq.
  - intros Hne. rewrite list_insert_insert_ne; [reflexivity |]. lia.
Qed.

Lemma setSensorData_compose_witness :
  0 <= 0 < MAX_SENSORS /\ 0 <= 1 < MAX_SENSORS /\
  run [OpSetSensorData 0 0x0600 100; OpSetSensorData 0 0x0610 200]
      (power_on 0 0 0) =
    run [OpSetSensorData 0 0x0610 200] (power_on 0 0 0).
Proof.
  assert (H1 : 0 <= 0 < MAX_SENSORS) by (unfold MAX_SENSORS; lia).
  assert (H2 : 0 <= 1 < MAX_SENSORS) by (unfold MAX_SENSORS; lia).
  exact (conj H1 (conj H2
    (proj1 (setSensorData_compose 0 1 0x0600 100 0x0610 200
              (power_on 0 0 0) H1 H2)))).
Defined.

Lemma trace_set_sensorTableIdx r st :
  trace (set_sensorTableIdx r st) = trace st.
Proof. reflexivity. Qed.

Lemma output_since_answered st r type i v :
  output_since st (set_sensorTableIdx r (sendData type i v st)) =
  flat_map stuff (raw_packet type i v).
Proof.
  pose proof (sendData_output type i v st) as H.
  unfold output_since in *. rewrite trace_set_sensorTableIdx. exact H.
Qed.

(** X17.  What [setSensorData] stores is what the next poll sends: after
    [setSensorData (idx, id, val)] an answered poll writes the packet of
    [(id, val)] when [idx] is the cursor, and the packet of the slot the
    cursor was on, unchanged, when it is another slot. *)
Theorem setSensorData_then_poll sid n idx i v st :
  0 < n <= MAX_SENSORS -> configured sid n st -> 0 <= idx < MAX_SENSORS ->
  exists st1 st2,
    setSensorData idx i v st = Returned st1 /\
    poll [SPORT_FRAME_BEGIN; sid] st1 = Returned st2 /\
    output_since st1 st2 =
      slot_frame (if idx =? _sensorTableIdx st then {| id := i; val := v |}
                  else _sensorTable st !!! Z.to_nat (_sensorTableIdx st)).
Proof.
  intros Hn Hst Hidx.
  assert (Hn8 : 0 < n < 2 ^ 8) by (unfold MAX_SENSORS in Hn; lia).
  pose proof (setSensorData_store idx i v st Hidx) as Hset.
  pose proof (setSensorData_configured sid n idx i v st _ Hst Hset) as Hst1.
  eexists. eexists. split; [exact Hset |].
  rewrite (poll_answered sid n Hn [] _ Hst1). cbn [poll].
  split; [reflexivity |].
  rewrite output_since_answered. unfold slot_frame.
  cbn [set_sensorTable _sensorTable _sensorTableIdx].
  destruct Hst as (_ & Hv & Hc & Ht).
  unfold cursor_ok, table_ok, MAX_SENSORS in *.
  destruct (Z.eqb_spec idx (_sensorTableIdx st)) as [-> | Hne].
  - rewrite list_lookup_total_insert_eq by lia. reflexivity.
  - rewrite list_lookup_total_insert_ne by lia. reflexivity.
Qed.

Lemma setSensorData_then_poll_witness :
  0 < 2 <= MAX_SENSORS /\
  configured 0x06 2 (begin 0x80 0x20 0x06 2 (power_on 0 0 0)) /\
  0 <= 0 < MAX_SENSORS /\
  exists st1 st2,
    setSensorData 0 0x0600 100 (begin 0x80 0x20 0x06 2 (power_on 0 0 0)) =
      Returned st1 /\
    poll [SPORT_FRAME_BEGIN; 0x06] st1 = Returned st2 /\
    output_since st1 st2 =
      slot_frame
        (if 0 =? _sensorTableIdx (begin 0x80 0x20 0x06 2 (power_on 0 0 0))
         then {| id := 0x0600; val := 100 |}
         else _sensorTable (begin 0x80 0x20 0x06 2 (power_on 0 0 0)) !!!
                Z.to_nat
                  (_sensorTableIdx (begin 0x80 0x20 0x06 2 (power_on 0 0 0)))).
Proof.
  assert (H1 : 0 < 2 <= MAX_SENSORS) by (unfold MAX_SENSORS; lia).
  assert (H2 : configured 0x06 2 (begin 0x80 0x20 0x06 2 (power_on 0 0 0)))
    by (apply begin_configured; lia).
  assert (H3 : 0 <= 0 < MAX_SENSORS) by (unfold MAX_SENSORS; lia).
  exact (conj H1 (conj H2 (conj H3
    (setSensorData_then_poll 0x06 2 0 0x0600 100 _ H1 H2 H3)))).
Defined.

(** ** The line between calls *)

Lemma run_preserves (P : state -> Prop) :
  (forall st st', P st -> answer st = Returned st' -> P st') ->
  (forall type i v st, P st -> P (sendData type i v st)) ->
  (forall t st, P st -> P (set_sensorTable t st)) ->
  forall ops st st', P st -> final (run ops st) = Some st' -> P st'.
Proof.
  intros Hanswer Hsend Hset ops.
  assert (Hexec : forall o st st',
            P st -> final (exec o st) = Some st' -> P st').
  { intros [rx | type i v | idx i v] st st' Hst; cbn [exec].
    - now apply poll_preserves.
    - intros H. cbn [final] in H. injection H as <-. now apply Hsend.
    - unfold setSensorData. destruct (_ && _); [| discriminate].
      intros H. cbn [final] in H. injection H as <-. now apply Hset. }
  induction ops as [| o ops IH]; intros st st' Hst Hfin.
  - cbn in Hfin. now injection Hfin as <-.
  - cbn [run] in Hfin.
    destruct (exec o st) as [st1 | st1 |] eqn:E.
    + apply (IH st1 st'); [| exact Hfin].
      apply (Hexec o st); [exact Hst | now rewrite E].
    + apply (Hexec o st); [exact Hst | now rewrite E].
    + discriminate.
Qed.

Lemma line_idle_sendData c1 type i v st :
  line_idle c1 st -> line_idle c1 (sendData type i v st).
Proof.
  intros (H3 & H2 & H1 & Htr). unfold line_idle. rewrite sendData_state.
  cbn [sportSerial_UART_C1 sportSerial_UART_C3 sportSerial_UART_S2 trace].
  rewrite H3. split; [reflexivity |]. split; [exact H2 |].
  split; [exact H1 |].
  intros tx tr. rewrite <- app_assoc, Htr.
  cbn [app writes_while_tx]. rewrite tx_asserted_on.
  rewrite <- app_assoc, writes_under_tx.
  cbn [app writes_while_tx]. now rewrite tx_asserted_off.
Qed.

Lemma line_idle_set_sensorTableIdx c1 r st :
  line_idle c1 st -> line_idle c1 (set_sensorTableIdx r st).
Proof. intros H. exact H. Qed.

Lemma line_idle_set_sensorTable c1 t st :
  line_idle c1 st -> line_idle c1 (set_sensorTable t st).
Proof. intros H. exact H. Qed.

Lemma line_idle_answer c1 st st' :
  line_idle c1 st -> answer st = Returned st' -> line_idle c1 st'.
Proof.
  intros Hs Ha. destruct (answer_shape st st' Ha) as (slot & r & _ & ->).
  apply line_idle_set_sensorTableIdx. now apply line_idle_sendData.
Qed.

Lemma line_idle_begin L R sid n c1 c3 s2 :
  line_idle (Z.lor L R) (begin L R sid n (power_on c1 c3 s2)).
Proof.
  unfold line_idle. repeat (split; [reflexivity |]).
  intros tx tr. reflexivity.
Qed.

Lemma line_idle_run c1 ops st st' :
  line_idle c1 st -> final (run ops st) = Some st' -> line_idle c1 st'.
Proof.
  apply (run_preserves (line_idle c1)).
  - apply line_idle_answer.
  - intros type i v s. apply line_idle_sendData.
  - intros t s. apply line_idle_set_sensorTable.
Qed.

(** X18.  After [begin], whatever sequence of [poll], [sendData] and
    [setSensorData] calls follows: the three UART registers hold what
    [begin] wrote (so the line is in receive direction between calls), and
    no byte was ever written while the line was not driven. *)
Theorem line_listens_between_calls L R sid n c1 c3 s2 ops st :
  final (run ops (begin L R sid n (power_on c1 c3 s2))) = Some st ->
  sportSerial_UART_C3 st = 0x10 /\
  sportSerial_UART_S2 st = 0x10 /\
  sportSerial_UART_C1 st = Z.lor L R /\
  tx_asserted (sportSerial_UART_C3 st) = false /\
  forall tx, writes_while_tx tx (trace st) = true.
Proof.
  intros Hfin.
  destruct (line_idle_run _ ops _ st (line_idle_begin L R sid n c1 c3 s2) Hfin)
    as (H3 & H2 & H1 & Htr).
  repeat (split; [assumption |]).
  split; [now rewrite H3 |].
  intros tx. specialize (Htr tx []). rewrite app_nil_r in Htr. exact Htr.
Qed.

(** ** Single-bit errors *)

Lemma lxor_u8 a b : is_u8 a -> is_u8 b -> is_u8 (Z.lxor a b).
Proof.
  unfold is_u8. intros Ha Hb.
  assert (E : Z.lxor a b mod 2 ^ 8 = Z.lxor a b).
  { apply Z.bits_inj'. intros m Hm.
    destruct (Z.lt_ge_cases m 8) as [Hlt | Hge].
    - now rewrite Z.mod_pow2_bits_low by lia.
    - rewrite Z.mod_pow2_bits_high by lia. rewrite Z.lxor_spec.
      rewrite <- (Z.mod_small a (2 ^ 8)), <- (Z.mod_small b (2 ^ 8)) by lia.
      now rewrite !Z.mod_pow2_bits_high by lia. }
  rewrite <- E. apply Z.mod_pos_bound. lia.
Qed.

Lemma flip_bit_facts x k :
  is_u8 x -> 0 <= k < 8 ->
  is_u8 (Z.lxor x (2 ^ k)) /\ Z.lxor x (2 ^ k) <> x /\
  ~ (x = 0 /\ Z.lxor x (2 ^ k) = 255) /\
  ~ (x = 255 /\ Z.lxor x (2 ^ k) = 0).
Proof.
  intros Hx Hk.
  assert (Hp : is_u8 (2 ^ k)).
  { unfold is_u8. split; [apply Z.pow_nonneg; lia |].
    apply Z.pow_lt_mono_r; lia. }
  split; [now apply lxor_u8 |].
  assert (Hk8 : k = 0 \/ k = 1 \/ k = 2 \/ k = 3 \/ k = 4 \/ k = 5 \/
                k = 6 \/ k = 7) by lia.
  split; [| split].
  - intros E. apply (f_equal (fun z => Z.testbit z k)) in E.
    rewrite Z.lxor_spec, Z.pow2_bits_true in E by lia.
    now destruct (Z.testbit x k).
  - intros [-> E]. rewrite Z.lxor_0_l in E.
    destruct Hk8 as [-> | [-> | [-> | [-> | [-> | [-> | [-> | ->]]]]]]];
      discriminate E.
  - intros [-> E].
    destruct Hk8 as [-> | [-> | [-> | [-> | [-> | [-> | [-> | ->]]]]]]];
      discriminate E.
Qed.

(** X19.  [CRC] detects every single-bit error: flipping one bit of one
    byte of an 8-byte packet changes the checksum. *)
Theorem CRC_detects_bit_flip (b : list Z) (i : nat) (k : Z) :
  length b = 8%nat -> Forall is_u8 b -> (i < 8)%nat -> 0 <= k < 8 ->
  CRC (<[i := Z.lxor (b !!! i) (2 ^ k)]> b) <> CRC b.
Proof.
  intros Hlen Hb Hi Hk.
  assert (Hx : is_u8 (b !!! i)) by (apply Forall_u8_lookup; [exact Hb | lia]).
  destruct (flip_bit_facts (b !!! i) k Hx Hk) as (Hy & Hne & H0 & H255).
  intros E.
  apply (CRC_edit_collides_iff b i _ Hlen Hb Hi Hy Hne) in E.
  destruct E as [[E | E] _]; [exact (H0 E) | exact (H255 E)].
Qed.

Lemma CRC_detects_bit_flip_witness :
  length [0x10; 0x00; 0x06; 0xD2; 0x04; 0x00; 0x00; 0x00] = 8%nat /\
  Forall is_u8 [0x10; 0x00; 0x06; 0xD2; 0x04; 0x00; 0x00; 0x00] /\
  (1 < 8)%nat /\ 0 <= 7 < 8 /\
  CRC (<[1%nat := Z.lxor
                    ([0x10; 0x00; 0x06; 0xD2; 0x04; 0x00; 0x00; 0x00] !!! 1%nat)
                    (2 ^ 7)]>
         [0x10; 0x00; 0x06; 0xD2; 0x04; 0x00; 0x00; 0x00]) <>
  CRC [0x10; 0x00; 0x06; 0xD2; 0x04; 0x00; 0x00; 0x00].
Proof.
  assert (H1 : length [0x10; 0x00; 0x06; 0xD2; 0x04; 0x00; 0x00; 0x00] = 8%nat)
    by reflexivity.
  assert (H2 : Forall is_u8 [0x10; 0x00; 0x06; 0xD2; 0x04; 0x00; 0x00; 0x00]).
  { repeat (apply Forall_cons_2; [unfold is_u8; lia |]). apply Forall_nil_2. }
  assert (H3 : (1 < 8)%nat) by lia.
  assert (H4 : 0 <= 7 < 8) by lia.
  exact (conj H1 (conj H2 (conj H3 (conj H4
    (CRC_detects_bit_flip _ 1 7 H1 H2 H3 H4))))).
Defined.

(** ** How much a call of [poll] can send *)

Lemma poll_output_bound rx : forall st st',
  final (poll rx st) = Some st' ->
  exists es,
    trace st' = trace st ++ es /\
    (length (written es) <= 8 * length rx)%nat.
Proof.
  induction rx as [| a | a b rx IH1 IH2] using list_pair_ind;
    intros st st' Hfin.
  - cbn in Hfin. injection Hfin as <-. exists []. split; [| cbn; lia].
    now rewrite app_nil_r.
  - exists []. rewrite app_nil_r. split; [| cbn; lia].
    destruct (Z.eq_dec a SPORT_FRAME_BEGIN) as [-> | Ha].
    + rewrite poll_blocked in Hfin. now injection Hfin as <-.
    + rewrite poll_skip in Hfin by exact Ha. now injection Hfin as <-.
  - destruct (Z.eq_dec a SPORT_FRAME_BEGIN) as [-> | Ha].
    + rewrite poll_pair in Hfin.
      destruct (_ && _).
      * destruct (answer_cases st) as [E | [s E]]; rewrite E in Hfin;
          [discriminate Hfin |].
        destruct (IH1 s st' Hfin) as (es & Hes & Hlen).
        destruct (answer_shape st s E) as (slot & r & _ & ->).
        rewrite trace_set_sensorTableIdx, sendData_log in Hes.
        eexists. split; [rewrite Hes, <- app_assoc; reflexivity |].
        rewrite written_app. cbn [written].
        rewrite written_app, written_writes. cbn [written].
        rewrite !length_app.
        pose proof (length_flat_map_stuff_le
                      (raw_packet 16 (id slot) (wrap_i32 (val slot)))) as Hle.
        rewrite length_raw_packet in Hle.
        cbn [length]. lia.
      * destruct (IH1 st st' Hfin) as (es & Hes & Hlen).
        exists es. split; [exact Hes |]. cbn [length]. lia.
    + rewrite poll_skip in Hfin by exact Ha.
      destruct (IH2 st st' Hfin) as (es & Hes & Hlen).
      exists es. split; [exact Hes |]. cbn [length] in *. lia.
Qed.

(** X20.  A call of [poll] writes at most one frame for every two bytes
    it reads: at most eight times as many bytes as it was given, and none
    on an input of fewer than two bytes. *)
Theorem poll_output_at_most rx st st' :
  final (poll rx st) = Some st' ->
  (length (output_since st st') <= 8 * length rx)%nat /\
  ((length rx < 2)%nat -> trace st' = trace st).
Proof.
  intros Hfin. split.
  - destruct (poll_output_bound rx st st' Hfin) as (es & Hes & Hlen).
    unfold output_since. now rewrite Hes, drop_app_length.
  - intros Hshort.
    destruct rx as [| a [| b rx]]; [| | cbn [length] in Hshort; lia].
    + cbn in Hfin. now injection Hfin as <-.
    + destruct (Z.eq_dec a SPORT_FRAME_BEGIN) as [-> | Ha].
      * rewrite poll_blocked in Hfin. now injection Hfin as <-.
      * rewrite poll_skip in Hfin by exact Ha. now injection Hfin as <-.
Qed.

Lemma poll_output_at_most_witness :
  final (poll [0x7E; 0x06; 0x7E]
           (begin 0x80 0x20 0x06 2 (power_on 0 0 0))) =
    Some (set_sensorTableIdx 1
            (sendData 0x10 0 0 (begin 0x80 0x20 0x06 2 (power_on 0 0 0)))) /\
  (length (output_since (begin 0x80 0x20 0x06 2 (power_on 0 0 0))
             (set_sensorTableIdx 1
                (sendData 0x10 0 0
                   (begin 0x80 0x20 0x06 2 (power_on 0 0 0)))))
   <= 8 * length [0x7E%Z; 0x06%Z; 0x7E%Z])%nat.
Proof.
  assert (H : final (poll [0x7E; 0x06; 0x7E]
                       (begin 0x80 0x20 0x06 2 (power_on 0 0 0))) =
              Some (set_sensorTableIdx 1
                      (sendData 0x10 0 0
                         (begin 0x80 0x20 0x06 2 (power_on 0 0 0)))))
    by (vm_compute; reflexivity).
  exact (conj H (proj1 (poll_output_at_most _ _ _ H))).
Defined.

Lemma line_listens_between_calls_witness :
  final (run [OpSetSensorData 0 0x0600 100; OpPoll [0x7E; 0x06; 0x7E]]
           (begin 0x80 0x20 0x06 2 (power_on 0 0x30 0))) =
    Some (set_sensorTableIdx 1
            (sendData 0x10 0x0600 100
               (set_sensorTable
                  (<[0%nat := {| id := 0x0600; val := 100 |}]>
                     (_sensorTable (power_on 0 0x30 0)))
                  (begin 0x80 0x20 0x06 2 (power_on 0 0x30 0))))) /\
  forall tx,
    writes_while_tx tx
      (trace (set_sensorTableIdx 1
                (sendData 0x10 0x0600 100
                   (set_sensorTable
                      (<[0%nat := {| id := 0x0600; val := 100 |}]>
                         (_sensorTable (power_on 0 0x30 0)))
                      (begin 0x80 0x20 0x06 2 (power_on 0 0x30 0)))))) = true.
Proof.
  assert (H : final (run [OpSetSensorData 0 0x0600 100;
                          OpPoll [0x7E; 0x06; 0x7E]]
                       (begin 0x80 0x20 0x06 2 (power_on 0 0x30 0))) =
              Some (set_sensorTableIdx 1
                      (sendData 0x10 0x0600 100
                         (set_sensorTable
                            (<[0%nat := {| id := 0x0600; val := 100 |}]>
                               (_sensorTable (power_on 0 0x30 0)))
                            (begin 0x80 0x20 0x06 2 (power_on 0 0x30 0))))))
    by (vm_compute; reflexivity).
  split; [exact H |].
  apply (line_listens_between_calls 0x80 0x20 0x06 2 0 0x30 0 _ _ H).
Defined.
